(** * SI fanfic word counter: a shallow embedding and its properties

    The development follows [SI-fanfic-word-count.py] (site profiles, the
    [Scraper] class) and [SI-fanfic-output-cleanup.py] (the companion
    filter).

    Modelling conventions.
    - A Python [str] is a [string]; a character is a code point below 256.
    - [str.find] returns [None] where Python returns [-1].
    - A Python [float] is the rational it denotes. Float arithmetic
      rounds its exact result to 53 significant bits, ties to even
      ([Scraper.float_round]); the exponent range is left unbounded, so
      overflow and underflow, which need magnitudes beyond 1e308 or below
      1e-308, do not arise, and neither do infinities or NaN.
    - The network is a script of replies consumed one per [requests.get].
    - Console output is left out, apart from the rate report of
      [hit_rate_limit], which is returned as a value. *)

From Stdlib Require Import String Ascii List Bool Arith ZArith QArith Lia.
From Stdlib Require DecimalString.
Import ListNotations.

Close Scope Q_scope.
Local Open Scope nat_scope.
Local Open Scope list_scope.
Local Open Scope string_scope.

(** ** Python string primitives *)

Module PyStr.

(** [s[n:]] for [0 <= n]. *)
Fixpoint drop (n : nat) (s : string) : string :=
  match n, s with
  | O, _ => s
  | S _, EmptyString => EmptyString
  | S n', String _ s' => drop n' s'
  end.

(** [s[:n]] for [0 <= n]. *)
Fixpoint take (n : nat) (s : string) : string :=
  match n, s with
  | O, _ => EmptyString
  | S _, EmptyString => EmptyString
  | S n', String c s' => String c (take n' s')
  end.

(** [s[a:b]] for [0 <= a] and [0 <= b]; empty when [b <= a]. *)
Definition slice (s : string) (a b : nat) : string :=
  take (b - a) (drop a s).

(** [s.startswith(p)]. *)
Fixpoint startswith (p s : string) : bool :=
  match p, s with
  | EmptyString, _ => true
  | String _ _, EmptyString => false
  | String a p', String b s' => Ascii.eqb a b && startswith p' s'
  end.

(** Index of the first occurrence of [sub] in [s], scanning from 0. *)
Fixpoint find0 (sub s : string) : option nat :=
  if startswith sub s then Some O
  else match s with
       | EmptyString => None
       | String _ s' => option_map S (find0 sub s')
       end.

(** [s.find(sub, start)]: lowest index [>= start] where [sub] occurs. *)
Definition find (sub s : string) (start : nat) : option nat :=
  if Nat.leb start (String.length s)
  then option_map (Nat.add start) (find0 sub (drop start s))
  else None.

(** [sub in s]. *)
Definition contains (sub s : string) : bool :=
  match find sub s 0 with Some _ => true | None => false end.

(** [c.isspace()] on the code points below 256. *)
Definition isspace (c : ascii) : bool :=
  let n := nat_of_ascii c in
  (((9 <=? n) && (n <=? 13)) || ((28 <=? n) && (n <=? 32))
   || (n =? 133) || (n =? 160))%nat.

Fixpoint lstrip (s : string) : string :=
  match s with
  | EmptyString => EmptyString
  | String c s' => if isspace c then lstrip s' else s
  end.

Fixpoint rstrip (s : string) : string :=
  match s with
  | EmptyString => EmptyString
  | String c s' =>
      match rstrip s' with
      | EmptyString => if isspace c then EmptyString else String c EmptyString
      | r => String c r
      end
  end.

(** [s.strip()]. *)
Definition strip (s : string) : string := rstrip (lstrip s).

(** [s.replace(old, new)] for a one-character [old]. *)
Fixpoint replace_char (old : ascii) (new : string) (s : string) : string :=
  match s with
  | EmptyString => EmptyString
  | String c s' =>
      if Ascii.eqb c old then new ++ replace_char old new s'
      else String c (replace_char old new s')
  end.

(** [c in s] for a character [c]. *)
Fixpoint has_char (c : ascii) (s : string) : bool :=
  match s with
  | EmptyString => false
  | String d s' => Ascii.eqb d c || has_char c s'
  end.

Definition newline : ascii := ascii_of_nat 10.
Definition tab : ascii := ascii_of_nat 9.
Definition bar : ascii := "|"%char.

(** [x in xs] for a list of strings. *)
Definition mem (x : string) (xs : list string) : bool :=
  existsb (String.eqb x) xs.

End PyStr.

Import PyStr.

(** ** Site profiles *)

Definition urls_to_ignore : list string := ["/threads/rules-terms-of-service"].

Definition PROBLEM_WORD_COUNT_NOT_FOUND : string := "word count not found".

Module SV.

Definition url_pattern_suffix : string := "/threadmarks".
Definition start_text : string := "Statistics (".
Definition end_text : string := "words".
Definition error_text : string := "Oops! We ran into some problems.".

Definition get_word_count_text (threadmark_text : string) : string :=
  match find start_text threadmark_text 0 with
  | None => PROBLEM_WORD_COUNT_NOT_FOUND
  | Some start =>
      match find end_text threadmark_text start with
      | None => PROBLEM_WORD_COUNT_NOT_FOUND
      | Some e =>
          let wc_text :=
            slice threadmark_text (start + String.length start_text) e in
          if String.eqb wc_text EmptyString then PROBLEM_WORD_COUNT_NOT_FOUND
          else wc_text
      end
  end.

(** The extraction as the specification words it: the token between the
    markers is trimmed, and an empty trimmed token is a failure. *)
Definition spec_get_word_count_text (threadmark_text : string) : string :=
  match find start_text threadmark_text 0 with
  | None => PROBLEM_WORD_COUNT_NOT_FOUND
  | Some start =>
      let from := start + String.length start_text in
      match find end_text threadmark_text from with
      | None => PROBLEM_WORD_COUNT_NOT_FOUND
      | Some e =>
          let token := strip (slice threadmark_text from e) in
          if String.eqb token EmptyString then PROBLEM_WORD_COUNT_NOT_FOUND
          else token
      end
  end.

End SV.

(** ** A backtracking matcher for the fragment of [re] the program uses

    Alternatives are tried in Python's priority order: a greedy quantifier
    tries one more iteration before it tries to stop, a lazy one the other
    way round.  The matcher is written in continuation-passing style; the
    continuation receives the unread rest of the subject and the groups
    captured so far. *)

Module Re.

Inductive re : Type :=
| Eps : re
| Chr : ascii -> re                (* a literal character *)
| Cls : (ascii -> bool) -> re      (* a character class *)
| Cat : re -> re -> re
| Opt : bool -> re -> re           (* [r?] (greedy) or [r??] *)
| Star : bool -> re -> re          (* [r*] (greedy) or [r*?] *)
| Grp : nat -> re -> re.           (* capturing group number n *)

Definition Plus (greedy : bool) (r : re) : re := Cat r (Star greedy r).

Definition Seq (rs : list re) : re := fold_right Cat Eps rs.

Fixpoint Lit (s : string) : re :=
  match s with
  | EmptyString => Eps
  | String c s' => Cat (Chr c) (Lit s')
  end.

Definition groups : Type := list (nat * string).
Definition cont : Type := string -> groups -> option groups.

Definition orelse (a b : option groups) : option groups :=
  match a with Some _ => a | None => b end.

(** Iterations of a starred body; an iteration has to consume input. *)
Fixpoint star_loop (body : string -> groups -> cont -> option groups)
    (greedy : bool) (fuel : nat) (s : string) (g : groups) (k : cont)
    : option groups :=
  match fuel with
  | O => k s g
  | S fuel' =>
      let again :=
        body s g (fun s' g' =>
          if Nat.ltb (String.length s') (String.length s)
          then star_loop body greedy fuel' s' g' k
          else None) in
      if greedy then orelse again (k s g) else orelse (k s g) again
  end.

Fixpoint run (r : re) (s : string) (g : groups) (k : cont) {struct r}
    : option groups :=
  match r with
  | Eps => k s g
  | Chr c =>
      match s with
      | String d s' => if Ascii.eqb d c then k s' g else None
      | EmptyString => None
      end
  | Cls p =>
      match s with
      | String d s' => if p d then k s' g else None
      | EmptyString => None
      end
  | Cat r1 r2 => run r1 s g (fun s1 g1 => run r2 s1 g1 k)
  | Opt greedy r1 =>
      if greedy then orelse (run r1 s g k) (k s g)
      else orelse (k s g) (run r1 s g k)
  | Star greedy r1 => star_loop (run r1) greedy (String.length s) s g k
  | Grp n r1 =>
      run r1 s g (fun s' g' =>
        k s' ((n, take (String.length s - String.length s') s) :: g'))
  end.

(** [pattern.match(s)]: a match starting at index 0. *)
Definition pmatch (r : re) (s : string) : option groups :=
  run r s [] (fun _ g => Some g).

(** [re.search(pattern, s)]: the match at the leftmost start index. *)
Fixpoint search (r : re) (s : string) : option groups :=
  match pmatch r s with
  | Some g => Some g
  | None =>
      match s with
      | EmptyString => None
      | String _ s' => search r s'
      end
  end.

(** [match.group(n)] for a group that took part in the match. *)
Fixpoint group (n : nat) (g : groups) : string :=
  match g with
  | [] => EmptyString
  | (m, s) :: g' => if Nat.eqb m n then s else group n g'
  end.

(** The classes, on the code points below 256. *)
Definition between (lo hi : nat) (c : ascii) : bool :=
  let n := nat_of_ascii c in Nat.leb lo n && Nat.leb n hi.

Definition digit : ascii -> bool := between 48 57.

Definition word (c : ascii) : bool :=
  digit c || between 65 90 c || between 97 122 c || Ascii.eqb c "_"
  || between 170 170 c || between 178 179 c || between 181 181 c
  || between 185 186 c || between 188 190 c || between 192 214 c
  || between 216 246 c || between 248 255 c.

Definition space : ascii -> bool := isspace.

Definition dot (c : ascii) : bool := negb (Ascii.eqb c newline).

Definition one_of (cs : string) (c : ascii) : bool := has_char c cs.

End Re.

Module QQ.

Import Re.

Definition start_text : string := "Statistics (".
Definition error_text : string := "Oops! We ran into some problems.".

(** [\t*((?:\d+,)?\d+[\s\w]+), Word Count: (\d+\.?\d+[kKmM]?)] *)
Definition threadmark_pattern : re :=
  Seq [ Star true (Chr tab);
        Grp 1 (Seq [ Opt true (Seq [Plus true (Cls digit); Chr ","]);
                     Plus true (Cls digit);
                     Plus true (Cls (fun c => space c || word c)) ]);
        Lit ", Word Count: ";
        Grp 2 (Seq [ Plus true (Cls digit);
                     Opt true (Chr ".");
                     Plus true (Cls digit);
                     Opt true (Cls (one_of "kKmM")) ]) ].

Definition get_word_count_text (threadmark_text : string) : string :=
  match find start_text threadmark_text 0 with
  | None => PROBLEM_WORD_COUNT_NOT_FOUND
  | Some start =>
      let cur_text :=
        drop (start + String.length start_text) threadmark_text in
      match search threadmark_pattern cur_text with
      | None => PROBLEM_WORD_COUNT_NOT_FOUND
      | Some m => group 1 m ++ ", " ++ group 2 m
      end
  end.

(** The text of the docstring's example, as BeautifulSoup renders it. *)
Definition docstring_example : string :=
  "Statistics" ++ String tab (String tab (String tab
    "7 threadmarks, Word Count: 4.9k9adam4 (7 threadmarks)")).

End QQ.

(** ** Data model *)

Record RateLimitPoint : Type := { time : Q; requests : Z }.

Record Thread : Type := { name : string; url : string; word_count : string }.

(** [Thread(name, url)]: the word count defaults to ["-1"]. *)
Definition new_Thread (n u : string) : Thread :=
  {| name := n; url := u; word_count := "-1" |}.

(** An [<a>] element: [link.text] and [link.get('href')]. *)
Record Anchor : Type := { text : string; href : option string }.

(** The interface [BaseSite]; [url_pattern] is the template applied to a
    thread's URL. *)
Record BaseSite : Type := {
  url_pattern : string -> string;
  error_text : string;
  rate_limit_time : Z;
  get_word_count_text : string -> string
}.

Definition SV_site : BaseSite :=
  {| url_pattern := fun u => u ++ SV.url_pattern_suffix;
     error_text := SV.error_text;
     rate_limit_time := 5;
     get_word_count_text := SV.get_word_count_text |}.

Definition QQ_site : BaseSite :=
  {| url_pattern := fun u => u ++ "/threadmarks?category_id=1";
     error_text := QQ.error_text;
     rate_limit_time := 5;
     get_word_count_text := QQ.get_word_count_text |}.

(** Exceptions the scraper raises or lets through. *)
Inductive Exn : Type :=
| Exception404 (full_url : string)
| SiteError (status_code : Z)       (* "Some other error happened, code: .." *)
| ZeroDivisionError
| RequestException (msg : string).  (* raised by [requests.get] itself *)

(** One [requests.get]: what it produced, and the wall-clock reading taken
    if the reply is a throttle. *)
Inductive Reply : Type :=
| Http (status_code : Z) (page_text : string)
| Failed (msg : string).

Record Exchange : Type := { reply : Reply; clock : Q }.

Definition World : Type := list Exchange.

(** How a call ends; [Blocked] is a call that has not returned because the
    script of replies ran out. *)
Inductive Outcome (A : Type) : Type :=
| Returned (a : A)
| Raised (e : Exn)
| Blocked.

Arguments Returned {A} a.
Arguments Raised {A} e.
Arguments Blocked {A}.

(** ** The scraper *)

Module Scraper.

(** The mutable fields of a [Scraper]; [site] is fixed and [links_found]
    is never written after construction. *)
Record state : Type := { rate_limited : bool; rate_calc : list RateLimitPoint }.

(** [Scraper.__init__]. *)
Definition init : state := {| rate_limited := false; rate_calc := [] |}.

(** [_is_link_useful]. *)
Definition _is_link_useful (link_raw : option string) (link_text_raw : string)
    : bool :=
  match link_raw with
  | None => false
  | Some raw =>
      if String.eqb raw EmptyString || String.eqb link_text_raw EmptyString
      then false
      else
        let link := strip raw in
        let link_text := strip link_text_raw in
        if negb (startswith "http" link) || mem link urls_to_ignore
           || String.eqb link_text EmptyString
           || contains "Sufficiently Velocity" link_text
           || contains "into a problem" link_text
        then false else true
  end.

(** The href of an anchor the filter has accepted, for which it is
    present. *)
Definition href_str (a : Anchor) : string :=
  match href a with Some h => h | None => EmptyString end.

(** The [for link in links] loop of [parse_index_page]; [threads] is the
    list built so far. *)
Fixpoint parse_links (start_link end_link : string) (start : bool)
    (links : list Anchor) (threads : list Thread) : list Thread :=
  match links with
  | [] => threads
  | link :: rest =>
      if String.eqb (text link) start_link
      then parse_links start_link end_link true rest threads
      else
        let link_text := replace_char bar EmptyString (text link) in
        if negb start || negb (_is_link_useful (href link) link_text)
        then parse_links start_link end_link start rest threads
        else
          let threads' :=
            (threads ++ [new_Thread link_text (href_str link)])%list in
          if String.eqb link_text end_link then threads'
          else parse_links start_link end_link start rest threads'
  end.

(** [parse_index_page], given the anchors of the fetched page. *)
Definition parse_index_page (links : list Anchor)
    (start_link end_link : string) (prev_threads : option (list Thread))
    : list Thread :=
  let threads := parse_links start_link end_link false links [] in
  match prev_threads with
  | Some prev => (prev ++ threads)%list
  | None => threads
  end.

(** [f"{n:02d}"]. *)
Definition fmt_02d (n : Z) : string :=
  let s := DecimalString.NilZero.string_of_int (Z.to_int n) in
  if Nat.ltb (String.length s) 2 then "0" ++ s else s.

(** [fmt_sec]; [divmod] rounds towards minus infinity, as [Z.div] does
    for a positive divisor. *)
Definition fmt_sec (sec : Z) : string :=
  let m := (sec / 60)%Z in
  let s := (sec mod 60)%Z in
  let h := (m / 60)%Z in
  let m := (m mod 60)%Z in
  fmt_02d h ++ ":" ++ fmt_02d m ++ ":" ++ fmt_02d s.

(** [int(x)]: truncation towards zero. *)
Definition int_of (x : Q) : Z := Z.quot (Qnum x) (Zpos (Qden x)).

(** What [hit_rate_limit] prints once it has a rate. *)
Record Report : Type := { rate : Q; eta : Q; eta_text : string }.

Definition is_zero (x : Q) : bool := Qeq_bool x 0.

(** [n / d] rounded to the nearest integer, ties to the even one, for
    [0 < d]. *)
Definition round_half_even (n d : Z) : Z :=
  let f := (n / d)%Z in
  match (2 * (n mod d) ?= d)%Z with
  | Lt => f
  | Gt => (f + 1)%Z
  | Eq => if Z.even f then f else (f + 1)%Z
  end.

(** Numerator and denominator of [a / b / 2^e]. *)
Definition scaled_num (a : positive) (e : Z) : Z :=
  (Zpos a * 2 ^ Z.max 0 (- e))%Z.

Definition scaled_den (b : positive) (e : Z) : Z :=
  (Zpos b * 2 ^ Z.max 0 e)%Z.

(** The float nearest to [a / b]: the exponent [e] puts the scaled value
    between 2^52 and 2^53, where it is rounded to an integer. *)
Definition float_round_pos (a b : positive) : Q :=
  let e0 := (Z.log2 (Zpos a) - Z.log2 (Zpos b) - 53)%Z in
  let e := if (2 ^ 53 * scaled_den b e0 <=? scaled_num a e0)%Z
           then (e0 + 1)%Z else e0 in
  let m := round_half_even (scaled_num a e) (scaled_den b e) in
  Qmake (m * 2 ^ Z.max 0 e) (Z.to_pos (2 ^ Z.max 0 (- e))).

(** The float a real result is rounded to; also [float(n)] for an
    integer [n]. *)
Definition float_round (q : Q) : Q :=
  match Qnum q with
  | Z0 => 0%Q
  | Zpos a => float_round_pos a (Qden q)
  | Zneg a => Qopp (float_round_pos a (Qden q))
  end.

(** Lines 219-225: the rate over the window and the ETA; a float
    division by zero raises. *)
Definition rate_report (window : list RateLimitPoint) (p_cur p_max : Z)
    : Exn + Report :=
  match window, last window {| time := 0; requests := 0 |} with
  | first :: _, latest =>
      let dt := float_round (time latest - time first)%Q in
      if is_zero dt then inl ZeroDivisionError
      else
        let dn := float_round (inject_Z (requests latest - requests first)) in
        let r := float_round (dn / dt)%Q in
        if is_zero r then inl ZeroDivisionError
        else
          let e := float_round (float_round (inject_Z (p_max - p_cur)) / r)%Q in
          inr {| rate := r; eta := e; eta_text := fmt_sec (int_of e) |}
  | [], _ => inl ZeroDivisionError  (* not reached: the window is not empty *)
  end.

(** [hit_rate_limit]; [now] is the reading of [time.time()]. *)
Definition hit_rate_limit (sc : state) (now : Q) (p_cur p_max : Z)
    : state * (Exn + option Report) :=
  if negb (rate_limited sc)
  then ({| rate_limited := true;
           rate_calc := [{| time := now; requests := p_cur |}] |}, inr None)
  else
    let appended :=
      (rate_calc sc ++ [{| time := now; requests := p_cur |}])%list in
    let window := if Nat.ltb 5 (List.length appended) then tl appended
                  else appended in
    let sc' := {| rate_limited := rate_limited sc; rate_calc := window |} in
    match rate_report window p_cur p_max with
    | inl e => (sc', inl e)
    | inr r => (sc', inr (Some r))
    end.

(** [status_code_429]; the sleep leaves the state alone. *)
Definition status_code_429 (sc : state) (now : Q) (p_cur p_max : Z)
    : state * (Exn + unit) :=
  match hit_rate_limit sc now p_cur p_max with
  | (sc', inl e) => (sc', inl e)
  | (sc', inr _) => (sc', inr tt)
  end.

(** [get_word_count]: the [while True] loop consumes one exchange per
    iteration. *)
Fixpoint get_word_count (site : BaseSite) (thread : Thread)
    (p_cur p_max : Z) (sc : state) (w : World)
    : Outcome string * state * World :=
  match w with
  | [] => (Blocked, sc, [])
  | x :: w' =>
      match reply x with
      | Failed msg => (Raised (RequestException msg), sc, w')
      | Http code page_text =>
          if (code =? 404)%Z
          then (Raised (Exception404 (url_pattern site (url thread))), sc, w')
          else if (code =? 429)%Z
          then
            match status_code_429 sc (clock x) p_cur p_max with
            | (sc', inl e) => (Raised e, sc', w')
            | (sc', inr _) => get_word_count site thread p_cur p_max sc' w'
            end
          else
            let text := replace_char newline EmptyString page_text in
            if contains (error_text site) text
            then (Raised (SiteError code), sc, w')
            else (Returned (get_word_count_text site text), sc, w')
      end
  end.

(** What the body of the [for] loop of [retrieve_word_counts] does to a
    thread for which [get_word_count] returned [wc]. *)
Definition store_word_count (thread : Thread) (wc : string) : Thread :=
  {| name := replace_char newline EmptyString (name thread);
     url := url thread;
     word_count := replace_char newline EmptyString wc |}.

(** The loop of [retrieve_word_counts] from index [i] on; [None] when the
    loop has not finished. *)
Fixpoint retrieve_from (site : BaseSite) (i : nat) (p_max : Z)
    (threads : list Thread) (sc : state) (w : World)
    : option (list Thread) * state * World :=
  match threads with
  | [] => (Some [], sc, w)
  | thread :: rest =>
      match get_word_count site thread (Z.of_nat i + 1) p_max sc w with
      | (Blocked, sc', w') => (None, sc', w')
      | (Raised _, sc', w') =>
          match retrieve_from site (S i) p_max rest sc' w' with
          | (out, sc'', w'') => (option_map (cons thread) out, sc'', w'')
          end
      | (Returned wc, sc', w') =>
          match retrieve_from site (S i) p_max rest sc' w' with
          | (out, sc'', w'') =>
              (option_map (cons (store_word_count thread wc)) out, sc'', w'')
          end
      end
  end.

Definition retrieve_word_counts (site : BaseSite) (threads : list Thread)
    (sc : state) (w : World) : option (list Thread) * state * World :=
  retrieve_from site 0 (Z.of_nat (List.length threads)) threads sc w.

End Scraper.

(** ** The crawl runs *)

(** [f"{thread.name}|{thread.url}|{thread.word_count}"], the record of a
    thread; the writer ends each record with a newline. *)
Definition csv_record (t : Thread) : string :=
  name t ++ "|" ++ url t ++ "|" ++ word_count t.

Definition csv_line (t : Thread) : string :=
  csv_record t ++ String newline EmptyString.

(** [run_scraper_qq], given the anchors of the index page: the lines
    written to the output file. *)
Definition run_scraper_qq (index : list Anchor) (w : World)
    : option (list string) :=
  let threads :=
    Scraper.parse_index_page index
      "Complete Detachment (Star Wars Prequel SI)"
      "Bruh...I'm Dead AF (DxD SI)" None in
  match Scraper.retrieve_word_counts SV_site threads Scraper.init w with
  | (out, _, _) => option_map (map csv_line) out
  end.


(** ** The companion filter *)

Module Cleanup.

Import Re.

(** [^.+?\|https?://.+?]; the leading [^] is where [pattern.match]
    starts anyway. *)
Definition pattern : re :=
  Seq [ Plus false (Cls dot); Chr bar; Lit "http"; Opt true (Chr "s");
        Lit "://"; Plus false (Cls dot) ].

Definition keeps (line : string) : bool :=
  match pmatch pattern line with Some _ => true | None => false end.

(** [cleanup_output], from the lines read to the lines written. *)
Definition cleanup_output (lines : list string) : list string :=
  map (fun line => strip line ++ String newline EmptyString)
    (filter keeps lines).

End Cleanup.

(** ** Specification vocabulary *)

(** [sub] occurs in [s] at index [i]. *)
Definition occurs_at (sub s : string) (i : nat) : Prop :=
  exists pre post, s = pre ++ sub ++ post /\ String.length pre = i.

(** [i] is the lowest index, not below [from], at which [sub] occurs. *)
Definition first_at (sub s : string) (from i : nat) : Prop :=
  from <= i /\ occurs_at sub s i /\
  forall j, from <= j -> occurs_at sub s j -> i <= j.

(** [sub] does not occur in [s] at or after index [from]. *)
Definition absent_from (sub s : string) (from : nat) : Prop :=
  forall j, from <= j -> ~ occurs_at sub s j.

(** The contract of the marker-bounded extraction, one constructor per
    way it can end; the token is the text between the first start marker
    and the first end marker after it, taken as it stands. *)
Inductive marker_bounded (text : string) : string -> Prop :=
| mb_no_start :
    absent_from SV.start_text text 0 ->
    marker_bounded text PROBLEM_WORD_COUNT_NOT_FOUND
| mb_no_end i :
    first_at SV.start_text text 0 i ->
    absent_from SV.end_text text (i + String.length SV.start_text) ->
    marker_bounded text PROBLEM_WORD_COUNT_NOT_FOUND
| mb_empty pre post :
    text = pre ++ SV.start_text ++ SV.end_text ++ post ->
    first_at SV.start_text text 0 (String.length pre) ->
    marker_bounded text PROBLEM_WORD_COUNT_NOT_FOUND
| mb_token pre token post :
    text = pre ++ SV.start_text ++ token ++ SV.end_text ++ post ->
    first_at SV.start_text text 0 (String.length pre) ->
    first_at SV.end_text text
      (String.length pre + String.length SV.start_text)
      (String.length pre + String.length SV.start_text + String.length token) ->
    token <> EmptyString ->
    marker_bounded text token.

(** *** Index enumeration, as the specification words it *)

(** The thread made from an anchor: its text without the delimiter, and
    its href. *)
Definition to_thread (a : Anchor) : Thread :=
  new_Thread (replace_char bar EmptyString (text a)) (Scraper.href_str a).

(** The anchors that follow the first anchor whose text is the start
    marker. *)
Fixpoint after_start (start_link : string) (links : list Anchor)
    : list Anchor :=
  match links with
  | [] => []
  | a :: rest =>
      if String.eqb (text a) start_link then rest
      else after_start start_link rest
  end.

(** An anchor qualifies when it is not a start-marker anchor and passes
    the usefulness filter. *)
Definition qualifies (start_link : string) (a : Anchor) : bool :=
  negb (String.eqb (text a) start_link)
  && Scraper._is_link_useful (href a) (replace_char bar EmptyString (text a)).

(** The threads up to and including the first one named [end_link]. *)
Fixpoint through_end (end_link : string) (ts : list Thread) : list Thread :=
  match ts with
  | [] => []
  | t :: rest =>
      if String.eqb (name t) end_link then [t]
      else t :: through_end end_link rest
  end.

Definition spec_enumerate (start_link end_link : string)
    (links : list Anchor) : list Thread :=
  through_end end_link
    (map to_thread
       (filter (qualifies start_link) (after_start start_link links))).

(** The URL of a collected thread has an HTTP scheme and is not on the
    ignore-list. *)
Definition url_accepted (t : Thread) : Prop :=
  startswith "http" (strip (url t)) = true
  /\ mem (strip (url t)) urls_to_ignore = false.

Definition anchor (t h : string) : Anchor := {| text := t; href := Some h |}.

(** *** The orchestrator, as observed from outside *)

(** The outcome of the fetch made for each thread, in order, as the loop
    of [retrieve_word_counts] makes them from index [i] on; nothing is
    fetched after a call that does not return. *)
Fixpoint fetches (site : BaseSite) (i : nat) (p_max : Z)
    (threads : list Thread) (sc : Scraper.state) (w : World)
    : list (Outcome string) :=
  match threads with
  | [] => []
  | thread :: rest =>
      match Scraper.get_word_count site thread (Z.of_nat i + 1) p_max sc w with
      | (Blocked, _, _) => [Blocked]
      | (o, sc', w') => o :: fetches site (S i) p_max rest sc' w'
      end
  end.

(** The record a thread ends up with, given the outcome of its fetch. *)
Definition settle (t : Thread) (o : Outcome string) : Thread :=
  match o with
  | Returned wc => Scraper.store_word_count t wc
  | Raised _ => t
  | Blocked => t
  end.

Definition returns_or_raises (o : Outcome string) : Prop := o <> Blocked.

(** *** Runs of the throttle handler *)

(** A call [hit_rate_limit(p_cur, p_max)] made when the clock reads
    [call_now]. *)
Record ThrottleCall : Type := { call_now : Q; call_cur : Z; call_max : Z }.

Definition sample_of (c : ThrottleCall) : RateLimitPoint :=
  {| time := call_now c; requests := call_cur c |}.

Definition throttle (sc : Scraper.state) (c : ThrottleCall) : Scraper.state :=
  fst (Scraper.hit_rate_limit sc (call_now c) (call_cur c) (call_max c)).

(** The scraper after a sequence of throttles, from a fresh scraper. *)
Definition throttle_run (calls : list ThrottleCall) : Scraper.state :=
  fold_left throttle calls Scraper.init.

(** The last [n] elements of a list. *)
Definition last_n {A : Type} (n : nat) (l : list A) : list A :=
  skipn (List.length l - n) l.

(** *** The operations of a scraper *)

Inductive Op : Type :=
| ParseIndexPage (links : list Anchor) (start_link end_link : string)
    (prev_threads : option (list Thread))
| HitRateLimit (now : Q) (p_cur p_max : Z)
| StatusCode429 (now : Q) (p_cur p_max : Z)
| GetWordCount (thread : Thread) (p_cur p_max : Z) (w : World)
| RetrieveWordCounts (threads : list Thread) (w : World).

(** The scraper's fields after an operation, however the operation ends. *)
Definition exec (site : BaseSite) (sc : Scraper.state) (op : Op)
    : Scraper.state :=
  match op with
  | ParseIndexPage _ _ _ _ => sc
  | HitRateLimit now p_cur p_max =>
      fst (Scraper.hit_rate_limit sc now p_cur p_max)
  | StatusCode429 now p_cur p_max =>
      fst (Scraper.status_code_429 sc now p_cur p_max)
  | GetWordCount thread p_cur p_max w =>
      snd (fst (Scraper.get_word_count site thread p_cur p_max sc w))
  | RetrieveWordCounts threads w =>
      snd (fst (Scraper.retrieve_word_counts site threads sc w))
  end.

(** *** The shape of a record line *)

(** A non-empty field, a literal bar, [http://] or [https://], and at least
    one more character, all before any newline. *)
Definition looks_like_record (line : string) : Prop :=
  exists field scheme c rest,
    line = field ++ "|" ++ scheme ++ "://" ++ String c rest
    /\ field <> EmptyString
    /\ has_char newline field = false
    /\ (scheme = "http" \/ scheme = "https")
    /\ c <> newline.

Definition matched (o : option Re.groups) : bool :=
  match o with Some _ => true | None => false end.

Definition line_of (s : string) : string := s ++ String newline EmptyString.

(** A reply that signals throttling. *)
Definition throttled_reply (x : Exchange) : bool :=
  match reply x with
  | Http code _ => (code =? 429)%Z
  | Failed _ => false
  end.

(** Whether an operation meets a throttle event. *)
Definition throttles (op : Op) : bool :=
  match op with
  | ParseIndexPage _ _ _ _ => false
  | HitRateLimit _ _ _ => true
  | StatusCode429 _ _ _ => true
  | GetWordCount _ _ _ w => existsb throttled_reply w
  | RetrieveWordCounts _ w => existsb throttled_reply w
  end.

(** Every character of [s] satisfies [p]. *)
Fixpoint all_chars (p : ascii -> bool) (s : string) : bool :=
  match s with
  | EmptyString => true
  | String c s' => p c && all_chars p s'
  end.

(** The records of a run, thread by thread, from the outcomes of the
    fetches. *)
Definition settle_all (threads : list Thread) (os : list (Outcome string))
    : list Thread :=
  map (fun p => settle (fst p) (snd p)) (combine threads os).

(** The window a throttle leaves when the flag is already up: the sample
    is appended and, beyond five samples, the oldest is dropped. *)
Definition window_after (window : list RateLimitPoint) (s : RateLimitPoint)
    : list RateLimitPoint :=
  if Nat.ltb 5 (List.length (window ++ [s])%list) then tl (window ++ [s])%list
  else (window ++ [s])%list.

(** *** Two-digit fields *)

(** The decimal digit [d], for [0 <= d <= 9]. *)
Definition digit_char (d : Z) : ascii := ascii_of_nat (48 + Z.to_nat d).

(** [n] written with exactly two decimal digits, for [0 <= n < 100]. *)
Definition two_digits (n : Z) : string :=
  String (digit_char (n / 10)) (String (digit_char (n mod 10)) EmptyString).

(** What [retrieve_word_counts] may have done to a thread: nothing, or
    stored a word count. *)
Definition settled_from (t t' : Thread) : Prop :=
  t' = t \/ exists wc, t' = Scraper.store_word_count t wc.

(** ** The companion filter as a script

    A file system maps a path to the text of the regular file there. Text
    files are read with universal newlines; the platform's line separator
    is the newline, so text is written as it stands. *)

Module CleanupScript.

(** The parsed command line. *)
Record Args : Type := {
  input_file : string;
  output_file : string;
  force : bool
}.

Definition FS : Type := string -> option string.

(** [os.path.isfile(path)]. *)
Definition isfile (fs : FS) (path : string) : bool :=
  match fs path with Some _ => true | None => false end.

(** The file system after [path] was opened with mode "w", written and
    closed. *)
Definition write (fs : FS) (path content : string) : FS :=
  fun p => if String.eqb p path then Some content else fs p.

Definition carriage_return : ascii := ascii_of_nat 13.

(** The translation of "\r\n" and "\r" to "\n" on reading. *)
Fixpoint universal_newlines (s : string) : string :=
  match s with
  | EmptyString => EmptyString
  | String c s' =>
      if Ascii.eqb c carriage_return
      then match s' with
           | String d s'' =>
               if Ascii.eqb d newline
               then String newline (universal_newlines s'')
               else String newline (universal_newlines s')
           | EmptyString => String newline EmptyString
           end
      else String c (universal_newlines s')
  end.

(** The lines of a text, each with its newline; the last one may lack
    it. *)
Fixpoint split_lines (s : string) : list string :=
  match s with
  | EmptyString => []
  | String c s' =>
      if Ascii.eqb c newline then String c EmptyString :: split_lines s'
      else match split_lines s' with
           | [] => [String c EmptyString]
           | l :: ls => String c l :: ls
           end
  end.

(** [f.readlines()] on a file with this content. *)
Definition readlines (content : string) : list string :=
  split_lines (universal_newlines content).

(** What successive [f.write] calls leave in the file. *)
Definition written (lines : list string) : string :=
  fold_right append EmptyString lines.

(** [verify_input_args]. *)
Definition verify_input_args (fs : FS) (args : Args) : bool :=
  if negb (isfile fs (input_file args)) then false
  else if isfile fs (output_file args) && negb (force args) then false
  else true.

(** [cleanup_output]; [None] when opening the input raises. *)
Definition cleanup_output (fs : FS) (input output : string) : option FS :=
  match fs input with
  | None => None
  | Some content =>
      Some (write fs output (written (Cleanup.cleanup_output (readlines content))))
  end.

(** [main], given the parsed arguments: the file system it leaves. *)
Definition main (fs : FS) (args : Args) : FS :=
  if negb (verify_input_args fs args) then fs
  else match cleanup_output fs (input_file args) (output_file args) with
       | Some fs' => fs'
       | None => fs
       end.

End CleanupScript.

(** A line as [readlines] yields it: free of carriage returns, with no
    newline but possibly a final one. *)
Definition read_line (l : string) : Prop :=
  has_char CleanupScript.carriage_return l = false
  /\ exists body, has_char newline body = false
                  /\ (l = body \/ l = line_of body).

(** The continuation [k] succeeds on some suffix of [s]. *)
Definition reaches (s : string) (k : Re.cont) : Prop :=
  exists pre s' g', s = pre ++ s' /\ matched (k s' g') = true.






(* ================================================================== *)
(** * Properties *)

(** ** Strings *)

Section StringFacts.

Lemma append_nil_r (s : string) : s ++ EmptyString = s.
Proof. induction s; simpl; congruence. Qed.

Lemma append_assoc (a b c : string) : (a ++ b) ++ c = a ++ b ++ c.
Proof. induction a; simpl; congruence. Qed.

Lemma length_append (a b : string) :
  String.length (a ++ b) = String.length a + String.length b.
Proof. induction a; simpl; auto. Qed.

Lemma drop_append (a b : string) : drop (String.length a) (a ++ b) = b.
Proof. induction a; simpl; auto. Qed.

Lemma take_append (a b : string) : take (String.length a) (a ++ b) = a.
Proof. induction a; simpl; [destruct b; reflexivity | congruence]. Qed.

Lemma take_drop (n : nat) (s : string) : take n s ++ drop n s = s.
Proof.
  revert s; induction n; intros [|c s]; simpl; auto. now rewrite IHn.
Qed.

Lemma length_take (n : nat) (s : string) :
  n <= String.length s -> String.length (take n s) = n.
Proof.
  revert s; induction n; intros [|c s]; simpl; intros; auto; try lia.
  rewrite IHn; lia.
Qed.

Lemma drop_add (a b : nat) (s : string) : drop (a + b) s = drop b (drop a s).
Proof.
  revert s; induction a; intros [|c s]; simpl; auto. destruct b; reflexivity.
Qed.

Lemma startswith_append (p s : string) : startswith p (p ++ s) = true.
Proof.
  induction p; simpl; [reflexivity|]. now rewrite Ascii.eqb_refl.
Qed.

Lemma startswith_inv (p s : string) :
  startswith p s = true -> exists post, s = p ++ post.
Proof.
  revert s; induction p as [|a p IH]; intros s H.
  - exists s; reflexivity.
  - destruct s as [|b s]; simpl in H; [discriminate|].
    apply andb_true_iff in H as [Hab Hp].
    apply Ascii.eqb_eq in Hab; subst b.
    destruct (IH _ Hp) as [post ->]. now exists post.
Qed.

Lemma append_inj_l (a a' b b' : string) :
  String.length a = String.length a' -> a ++ b = a' ++ b' -> a = a' /\ b = b'.
Proof.
  revert a'; induction a as [|c a IH]; intros [|c' a'] Hl H;
    simpl in *; try discriminate; auto.
  injection H as -> H. destruct (IH a') as [-> ->]; auto.
Qed.

Lemma occurs_at_0 (sub s : string) :
  occurs_at sub s 0 <-> startswith sub s = true.
Proof.
  split.
  - intros (pre & post & -> & Hl). destruct pre; [|discriminate].
    simpl. apply startswith_append.
  - intros H. destruct (startswith_inv _ _ H) as [post ->].
    exists EmptyString, post; auto.
Qed.

Lemma occurs_at_S (sub : string) (c : ascii) (s : string) (i : nat) :
  occurs_at sub (String c s) (S i) <-> occurs_at sub s i.
Proof.
  split.
  - intros (pre & post & E & Hl). destruct pre as [|d pre]; [discriminate|].
    simpl in E, Hl. injection E as _ E. exists pre, post. split; auto.
  - intros (pre & post & -> & Hl). exists (String c pre), post.
    simpl; auto.
Qed.

Lemma occurs_at_bound (sub s : string) (i : nat) :
  occurs_at sub s i -> i + String.length sub <= String.length s.
Proof.
  intros (pre & post & -> & <-). rewrite !length_append. lia.
Qed.

Lemma occurs_at_drop (sub s : string) (n j : nat) :
  n <= String.length s ->
  occurs_at sub (drop n s) j <-> occurs_at sub s (n + j).
Proof.
  revert s; induction n as [|n IH]; intros s Hn; simpl; [tauto|].
  destruct s as [|c s]; simpl in Hn; [lia|].
  rewrite occurs_at_S. apply IH. lia.
Qed.

Lemma find0_cons (sub : string) (c : ascii) (s : string) :
  find0 sub (String c s)
  = if startswith sub (String c s) then Some 0
    else option_map S (find0 sub s).
Proof. reflexivity. Qed.

Lemma find0_Some (sub s : string) (i : nat) :
  find0 sub s = Some i ->
  occurs_at sub s i /\ forall j, occurs_at sub s j -> i <= j.
Proof.
  revert i; induction s as [|c s IH]; intros i; simpl.
  - destruct (startswith sub EmptyString) eqn:E; [|discriminate].
    intros [= <-]. split; [now apply occurs_at_0 | lia].
  - destruct (startswith sub (String c s)) eqn:E.
    + intros [= <-]. split; [now apply occurs_at_0 | lia].
    + destruct (find0 sub s) as [k|]; [|discriminate].
      intros [= <-]. destruct (IH k eq_refl) as [Hk Hmin]. split.
      * now apply occurs_at_S.
      * intros [|j] Hj.
        -- apply occurs_at_0 in Hj. congruence.
        -- apply occurs_at_S in Hj. apply Hmin in Hj. lia.
Qed.

Lemma find0_None (sub s : string) :
  find0 sub s = None -> forall j, ~ occurs_at sub s j.
Proof.
  induction s as [|c s IH]; simpl.
  - destruct (startswith sub EmptyString) eqn:E; [discriminate|].
    intros _ j Hj. pose proof (occurs_at_bound _ _ _ Hj) as Hb.
    simpl in Hb. assert (j = 0) by lia. subst.
    apply occurs_at_0 in Hj. congruence.
  - destruct (startswith sub (String c s)) eqn:E; [discriminate|].
    destruct (find0 sub s) as [k|]; [discriminate|].
    intros _ [|j] Hj.
    + apply occurs_at_0 in Hj. congruence.
    + apply occurs_at_S in Hj. now apply (IH eq_refl j).
Qed.

Lemma find_Some (sub s : string) (from i : nat) :
  find sub s from = Some i -> first_at sub s from i.
Proof.
  unfold find. destruct (Nat.leb from (String.length s)) eqn:Hle;
    [|discriminate].
  apply Nat.leb_le in Hle.
  destruct (find0 sub (drop from s)) as [k|] eqn:Hf; [|discriminate].
  intros [= <-]. destruct (find0_Some _ _ _ Hf) as [Hk Hmin].
  repeat split; [lia | now apply occurs_at_drop |].
  intros j Hj Hocc. replace j with (from + (j - from)) in Hocc by lia.
  apply occurs_at_drop in Hocc; auto. apply Hmin in Hocc. lia.
Qed.

Lemma find_None (sub s : string) (from : nat) :
  find sub s from = None -> absent_from sub s from.
Proof.
  unfold find, absent_from.
  destruct (Nat.leb from (String.length s)) eqn:Hle.
  - apply Nat.leb_le in Hle.
    destruct (find0 sub (drop from s)) as [k|] eqn:Hf; [discriminate|].
    intros _ j Hj Hocc. replace j with (from + (j - from)) in Hocc by lia.
    apply occurs_at_drop in Hocc; auto. now apply (find0_None _ _ Hf) in Hocc.
  - apply Nat.leb_gt in Hle. intros _ j Hj Hocc.
    apply occurs_at_bound in Hocc. lia.
Qed.

Lemma first_at_unique (sub s : string) (from i j : nat) :
  first_at sub s from i -> first_at sub s from j -> i = j.
Proof.
  intros (Hi & Oi & Mi) (Hj & Oj & Mj).
  apply Nat.le_antisymm; auto.
Qed.

Lemma first_at_find (sub s : string) (from i : nat) :
  first_at sub s from i -> find sub s from = Some i.
Proof.
  intros H. destruct (find sub s from) as [k|] eqn:E.
  - f_equal. eapply first_at_unique; eauto using find_Some.
  - destruct H as (Hi & Oi & _). now apply (find_None _ _ _ E) in Oi.
Qed.

Lemma absent_from_find (sub s : string) (from : nat) :
  absent_from sub s from -> find sub s from = None.
Proof.
  intros H. destruct (find sub s from) as [k|] eqn:E; auto.
  destruct (find_Some _ _ _ _ E) as (Hk & Ok & _). now apply H in Ok.
Qed.

Lemma find_append (sub pre s : string) :
  find sub (pre ++ s) (String.length pre)
  = option_map (Nat.add (String.length pre)) (find0 sub s).
Proof.
  unfold find. rewrite length_append, drop_append.
  destruct (Nat.leb_spec (String.length pre)
              (String.length pre + String.length s)); [reflexivity | lia].
Qed.

End StringFacts.

(** ** Marker-bounded extraction (SV) *)

Section MarkerBounded.

Let start_len : nat := String.length SV.start_text.

(** No occurrence of the end marker begins inside the start marker, so the
    search from the start marker's first character (what the code does)
    and the search from its end find the same index. *)
Lemma SV_end_not_in_start (rest : string) :
  find0 SV.end_text (SV.start_text ++ rest)
  = option_map (Nat.add start_len) (find0 SV.end_text rest).
Proof.
  unfold SV.end_text, SV.start_text, start_len. cbn -[find0].
  do 12 (rewrite find0_cons; cbn -[find0]).
  destruct (find0 "words" rest); reflexivity.
Qed.

Lemma SV_find_end_from_start (pre post0 : string) :
  find SV.end_text (pre ++ SV.start_text ++ post0) (String.length pre)
  = option_map (Nat.add (String.length pre + start_len))
      (find0 SV.end_text post0).
Proof.
  rewrite find_append, SV_end_not_in_start.
  destruct (find0 SV.end_text post0) as [k|]; [|reflexivity].
  cbn [option_map]. f_equal. lia.
Qed.

Lemma SV_find_end_from_end (pre post0 : string) :
  find SV.end_text (pre ++ SV.start_text ++ post0)
    (String.length pre + start_len)
  = option_map (Nat.add (String.length pre + start_len))
      (find0 SV.end_text post0).
Proof.
  unfold start_len. rewrite <- length_append, <- append_assoc.
  apply find_append.
Qed.

Lemma slice_between (pre mid token rest : string) :
  slice (pre ++ mid ++ token ++ rest)
    (String.length pre + String.length mid)
    (String.length pre + String.length mid + String.length token)
  = token.
Proof.
  unfold slice.
  replace (String.length pre + String.length mid + String.length token
           - (String.length pre + String.length mid))
    with (String.length token) by lia.
  rewrite <- length_append, <- append_assoc, drop_append.
  apply take_append.
Qed.

Lemma SV_get_word_count_text_found (text pre post0 : string) :
  text = pre ++ SV.start_text ++ post0 ->
  find SV.start_text text 0 = Some (String.length pre) ->
  SV.get_word_count_text text
  = match find0 SV.end_text post0 with
    | None => PROBLEM_WORD_COUNT_NOT_FOUND
    | Some k =>
        if String.eqb (take k post0) EmptyString
        then PROBLEM_WORD_COUNT_NOT_FOUND
        else take k post0
    end.
Proof.
  intros E Hs. unfold SV.get_word_count_text. rewrite Hs. subst text.
  rewrite SV_find_end_from_start.
  destruct (find0 SV.end_text post0) as [k|]; [|reflexivity].
  cbn [option_map]. fold start_len. unfold slice.
  replace (String.length pre + start_len + k
           - (String.length pre + start_len)) with k by lia.
  unfold start_len.
  now rewrite <- length_append, <- append_assoc, drop_append.
Qed.

Lemma SV_get_word_count_text_sound (text : string) :
  marker_bounded text (SV.get_word_count_text text).
Proof.
  destruct (find SV.start_text text 0) as [i|] eqn:Hs.
  2:{ unfold SV.get_word_count_text. rewrite Hs.
      apply mb_no_start. now apply find_None. }
  pose proof (find_Some _ _ _ _ Hs) as Hfirst.
  pose proof Hfirst as (_ & (pre & post0 & E & Hl) & _). subst i.
  rewrite (SV_get_word_count_text_found text pre post0 E Hs).
  destruct (find0 SV.end_text post0) as [k|] eqn:He.
  - destruct (find0_Some _ _ _ He) as [(token & post & E' & Hk) _].
    subst k post0. rewrite take_append.
    destruct (String.eqb_spec token EmptyString) as [->|Hne].
    + eapply mb_empty; eauto.
    + eapply mb_token; eauto. fold start_len.
      apply find_Some. rewrite E at 1.
      rewrite SV_find_end_from_end, He. reflexivity.
  - eapply mb_no_end; eauto. fold start_len.
    apply find_None. rewrite E at 1.
    rewrite SV_find_end_from_end, He. reflexivity.
Qed.

Lemma SV_get_word_count_text_complete (text r : string) :
  marker_bounded text r -> r = SV.get_word_count_text text.
Proof.
  intros [Hno | i Hs Hno | pre post E Hs | pre token post E Hs He Hne].
  - unfold SV.get_word_count_text. now rewrite (absent_from_find _ _ _ Hno).
  - pose proof Hs as (_ & (pre & post0 & E & Hl) & _). subst i.
    rewrite (SV_get_word_count_text_found text pre post0 E
               (first_at_find _ _ _ _ Hs)).
    apply absent_from_find in Hno. fold start_len in Hno.
    rewrite E in Hno at 1. rewrite SV_find_end_from_end in Hno.
    destruct (find0 SV.end_text post0); [discriminate | reflexivity].
  - rewrite (SV_get_word_count_text_found text pre _ E
               (first_at_find _ _ _ _ Hs)).
    reflexivity.
  - rewrite (SV_get_word_count_text_found text pre _ E
               (first_at_find _ _ _ _ Hs)).
    apply first_at_find in He. fold start_len in He.
    rewrite E in He at 1. rewrite SV_find_end_from_end in He.
    destruct (find0 SV.end_text (token ++ SV.end_text ++ post)) as [k|];
      [|discriminate].
    cbn [option_map] in He. injection He as He.
    assert (k = String.length token) by lia. subst k.
    rewrite take_append.
    destruct (String.eqb_spec token EmptyString); congruence.
Qed.

End MarkerBounded.

(** C1 (as amended). The marker-bounded extraction returns exactly what the
    contract [marker_bounded] allows, for every text: the not-found
    sentinel when the start marker is absent, when the end marker is absent
    after it, or when nothing lies between them; otherwise the text between
    the markers, untrimmed. The function is total, so it never raises. *)
Theorem SV_get_word_count_text_contract (text r : string) :
  marker_bounded text r <-> r = SV.get_word_count_text text.
Proof.
  split.
  - apply SV_get_word_count_text_complete.
  - intros ->. apply SV_get_word_count_text_sound.
Qed.

(** C1 as stated fails: the token is not trimmed, and a token of blanks is
    returned instead of the sentinel. *)
Lemma SV_get_word_count_text_untrimmed :
  SV.get_word_count_text "Statistics (12 threadmarks, 34k words)"
    = "12 threadmarks, 34k "
  /\ SV.spec_get_word_count_text "Statistics (12 threadmarks, 34k words)"
    = "12 threadmarks, 34k"
  /\ SV.get_word_count_text "Statistics ( words)" = " "
  /\ SV.spec_get_word_count_text "Statistics ( words)"
    = PROBLEM_WORD_COUNT_NOT_FOUND
  /\ ~ (forall text,
          SV.get_word_count_text text = SV.spec_get_word_count_text text).
Proof.
  repeat split; try reflexivity.
  intros H. specialize (H "Statistics ( words)"). discriminate H.
Qed.

(** ** Index enumeration *)

Section Enumeration.

Local Open Scope list_scope.

Variables start_link end_link : string.

Lemma through_end_app_cons (acc : list Thread) (t : Thread) (ts : list Thread) :
  (acc ++ [t]) ++ ts = acc ++ t :: ts.
Proof. now rewrite <- app_assoc. Qed.

Lemma parse_links_spec (start : bool) (links : list Anchor)
    (threads : list Thread) :
  Scraper.parse_links start_link end_link start links threads
  = threads ++
    through_end end_link
      (map to_thread
         (filter (qualifies start_link)
            (if start then links else after_start start_link links))).
Proof.
  revert start threads.
  induction links as [|a rest IH]; intros start threads.
  - destruct start; simpl; now rewrite app_nil_r.
  - cbn [Scraper.parse_links].
    assert (Hq : qualifies start_link a
                 = negb (String.eqb (text a) start_link)
                   && Scraper._is_link_useful (href a)
                        (replace_char bar EmptyString (text a))) by reflexivity.
    destruct (String.eqb (text a) start_link) eqn:Hs.
    + rewrite IH. destruct start; cbn [after_start filter];
        rewrite ?Hq, ?Hs; reflexivity.
    + destruct start; cbn [negb orb].
      * cbn [filter]. rewrite Hq. cbn [negb andb].
        destruct (Scraper._is_link_useful (href a)
                    (replace_char bar EmptyString (text a))) eqn:Hu; cbn [negb].
        -- cbn [map through_end].
           change (name (to_thread a))
             with (replace_char bar EmptyString (text a)).
           change (new_Thread (replace_char bar EmptyString (text a))
                     (Scraper.href_str a)) with (to_thread a).
           destruct (String.eqb (replace_char bar EmptyString (text a))
                       end_link).
           ++ reflexivity.
           ++ rewrite IH. apply through_end_app_cons.
        -- apply IH.
      * rewrite IH. cbn [after_start]. now rewrite Hs.
Qed.

Lemma parse_index_page_spec (links : list Anchor)
    (prev_threads : option (list Thread)) :
  Scraper.parse_index_page links start_link end_link prev_threads
  = match prev_threads with Some prev => prev | None => [] end
    ++ spec_enumerate start_link end_link links.
Proof.
  unfold Scraper.parse_index_page. rewrite parse_links_spec.
  destruct prev_threads; reflexivity.
Qed.

Lemma through_end_incl (ts : list Thread) :
  incl (through_end end_link ts) ts.
Proof.
  induction ts as [|t ts IH]; simpl; [apply incl_refl|].
  destruct (String.eqb (name t) end_link).
  - intros x [<-|[]]; now left.
  - intros x [<-|Hx]; [now left | right; now apply IH].
Qed.

Lemma through_end_id (ts : list Thread) :
  Forall (fun t => name t <> end_link) ts -> through_end end_link ts = ts.
Proof.
  induction 1 as [|t ts Ht _ IH]; simpl; [reflexivity|].
  destruct (String.eqb_spec (name t) end_link); congruence.
Qed.

End Enumeration.

Lemma startswith_http_not_ignored (link : string) :
  startswith "http" link = true -> mem link urls_to_ignore = false.
Proof.
  intros H. unfold mem, urls_to_ignore. cbn [existsb].
  rewrite orb_false_r. apply String.eqb_neq. intros ->. discriminate H.
Qed.

Lemma useful_url_accepted (a : Anchor) (link_text : string) :
  Scraper._is_link_useful (href a) link_text = true ->
  href a = Some (Scraper.href_str a)
  /\ startswith "http" (strip (Scraper.href_str a)) = true
  /\ mem (strip (Scraper.href_str a)) urls_to_ignore = false.
Proof.
  unfold Scraper._is_link_useful, Scraper.href_str.
  destruct (href a) as [raw|]; [|discriminate].
  destruct (String.eqb raw EmptyString || String.eqb link_text EmptyString);
    [discriminate|].
  destruct (startswith "http" (strip raw)) eqn:Hh; [|discriminate].
  intros _. repeat split. now apply startswith_http_not_ignored.
Qed.

Lemma spec_enumerate_accepted (start_link end_link : string)
    (links : list Anchor) :
  Forall url_accepted (spec_enumerate start_link end_link links).
Proof.
  apply Forall_forall. intros t Ht.
  apply through_end_incl, in_map_iff in Ht as (a & <- & Ha).
  apply filter_In in Ha as [_ Hq].
  apply andb_true_iff in Hq as [_ Hu].
  apply useful_url_accepted in Hu as (_ & H1 & H2).
  split; assumption.
Qed.

(** C2. Enumerating the five anchors of the scenario between "Start" and
    "End" yields the threads "Keep" and "End"; in general the result is the
    carried-forward threads followed by the qualifying anchors after the
    start marker, in document order, up to and including the first one
    named as the end marker, and every collected URL has an HTTP scheme and
    is not on the ignore-list. *)
Theorem parse_index_page_enumerates :
  Scraper.parse_index_page
    [anchor "skip-me" "x"; anchor "Start" "http://a"; anchor "Keep" "http://b";
     anchor "End" "http://c"; anchor "ignored" "http://d"]
    "Start" "End" None
  = [new_Thread "Keep" "http://b"; new_Thread "End" "http://c"]
  /\ (forall links start_link end_link prev_threads,
        Scraper.parse_index_page links start_link end_link prev_threads
        = (match prev_threads with Some prev => prev | None => [] end
           ++ spec_enumerate start_link end_link links)%list)
  /\ (forall links start_link end_link,
        Forall url_accepted
          (Scraper.parse_index_page links start_link end_link None)).
Proof.
  split; [reflexivity|]. split.
  - intros. apply parse_index_page_spec.
  - intros. rewrite parse_index_page_spec. apply spec_enumerate_accepted.
Qed.

Lemma after_start_app (start_link : string) (pre rest : list Anchor) :
  existsb (fun a => String.eqb (text a) start_link) pre = true ->
  after_start start_link (pre ++ rest)%list
  = (after_start start_link pre ++ rest)%list.
Proof.
  induction pre as [|a pre IH]; simpl; [discriminate|].
  destruct (String.eqb (text a) start_link); simpl; auto.
Qed.

Lemma after_start_incl (start_link : string) (links : list Anchor) :
  incl (after_start start_link links) links.
Proof.
  induction links as [|a links IH]; simpl; [apply incl_refl|].
  destruct (String.eqb (text a) start_link).
  - apply incl_tl, incl_refl.
  - now apply incl_tl.
Qed.

(** C10. An anchor that carries the end marker's text but fails the
    usefulness filter does not stop the enumeration: the loop goes on with
    the anchors after it, and when no other anchor carries the end marker's
    text every qualifying anchor up to the end of the list is collected. *)
Theorem rejected_end_anchor_does_not_stop
    (start_link end_link : string) (pre : list Anchor) (x : Anchor)
    (post : list Anchor) :
  existsb (fun a => String.eqb (text a) start_link) pre = true ->
  replace_char bar EmptyString (text x) = end_link ->
  Scraper._is_link_useful (href x) end_link = false ->
  Forall (fun a => replace_char bar EmptyString (text a) <> end_link)
    (pre ++ post)%list ->
  (forall threads,
      Scraper.parse_links start_link end_link true (x :: post) threads
      = Scraper.parse_links start_link end_link true post threads)
  /\ Scraper.parse_index_page (pre ++ x :: post)%list start_link end_link None
     = map to_thread
         (filter (qualifies start_link)
            (after_start start_link pre ++ post)%list).
Proof.
  intros Hstart Hx Hrej Hothers.
  assert (Hq : qualifies start_link x = false).
  { unfold qualifies. rewrite Hx, Hrej. apply andb_false_r. }
  split.
  - intros threads. rewrite !parse_links_spec. cbn [filter]. now rewrite Hq.
  - rewrite parse_index_page_spec. cbn [app]. unfold spec_enumerate.
    rewrite after_start_app by assumption.
    rewrite filter_app. cbn [filter]. rewrite Hq, <- filter_app.
    apply through_end_id.
    apply Forall_forall. intros t Ht.
    apply in_map_iff in Ht as (a & <- & Ha).
    apply filter_In in Ha as [Ha _].
    rewrite Forall_forall in Hothers. apply Hothers.
    apply in_app_or in Ha as [Ha|Ha]; apply in_or_app;
      [left; now apply (after_start_incl start_link) | now right].
Qed.

Lemma rejected_end_anchor_example :
  Scraper.parse_index_page
    [anchor "Start" "http://a"; anchor "Keep" "http://b";
     anchor "End" "/threads/end"; anchor "Later" "http://d"]
    "Start" "End" None
  = [new_Thread "Keep" "http://b"; new_Thread "Later" "http://d"].
Proof.
  refine (proj2 (rejected_end_anchor_does_not_stop "Start" "End"
                   [anchor "Start" "http://a"; anchor "Keep" "http://b"]
                   (anchor "End" "/threads/end")
                   [anchor "Later" "http://d"]
                   eq_refl eq_refl eq_refl _)).
  repeat constructor; discriminate.
Defined.

(** ** Pattern-bounded extraction (QQ) *)

(** C3 (the code departs from it). On the docstring's example the function
    returns the not-found sentinel, because the start marker
    ["Statistics ("] does not occur in the text; the pattern alone, applied
    to what follows the word "Statistics", does capture the two groups the
    docstring announces. *)
Theorem QQ_get_word_count_text_docstring_example :
  QQ.get_word_count_text QQ.docstring_example = PROBLEM_WORD_COUNT_NOT_FOUND
  /\ QQ.get_word_count_text QQ.docstring_example <> "7 threadmarks, 4.9k"
  /\ find QQ.start_text QQ.docstring_example 0 = None
  /\ option_map (fun m => Re.group 1 m ++ ", " ++ Re.group 2 m)
       (Re.search QQ.threadmark_pattern (drop 10 QQ.docstring_example))
     = Some "7 threadmarks, 4.9k".
Proof.
  split; [reflexivity|]. split; [discriminate|].
  split; vm_compute; reflexivity.
Qed.

(** ** The rate estimator *)

(** C6. With the window holding (0, 1) and (10, 6), the rate is 0.5
    requests per second; with 10 requests remaining the ETA is 20 seconds,
    shown as "00:00:20". The second sample is the one the reporting call
    appends. *)
Theorem hit_rate_limit_two_samples :
  let first := {| time := 0; requests := 1 |} in
  let second := {| time := 10 # 1; requests := 6 |} in
  exists r,
    Scraper.hit_rate_limit
      {| Scraper.rate_limited := true; Scraper.rate_calc := [first] |}
      (10 # 1) 6 16
    = ({| Scraper.rate_limited := true;
          Scraper.rate_calc := [first; second] |}, inr (Some r))
    /\ Scraper.rate_report [first; second] 6 16 = inr r
    /\ (Scraper.rate r == 1 # 2)%Q
    /\ (Scraper.eta r == 20 # 1)%Q
    /\ Scraper.int_of (Scraper.eta r) = 20%Z
    /\ Scraper.eta_text r = "00:00:20"
    /\ Scraper.fmt_sec 20 = "00:00:20".
Proof.
  eexists. split; [reflexivity|]. repeat split; vm_compute; reflexivity.
Qed.

Section Throttling.

Local Open Scope list_scope.

Lemma throttle_sets_flag (sc : Scraper.state) (c : ThrottleCall) :
  Scraper.rate_limited (throttle sc c) = true.
Proof.
  unfold throttle, Scraper.hit_rate_limit.
  destruct (Scraper.rate_limited sc); cbn [negb]; [|reflexivity].
  destruct (Scraper.rate_report _ _ _); reflexivity.
Qed.

Lemma throttle_window (sc : Scraper.state) (c : ThrottleCall) :
  Scraper.rate_calc (throttle sc c)
  = if Scraper.rate_limited sc
    then let appended := Scraper.rate_calc sc ++ [sample_of c] in
         if Nat.ltb 5 (List.length appended) then tl appended else appended
    else [sample_of c].
Proof.
  unfold throttle, Scraper.hit_rate_limit.
  destruct (Scraper.rate_limited sc); cbn [negb]; [|reflexivity].
  destruct (Scraper.rate_report _ _ _); reflexivity.
Qed.

Lemma throttle_run_snoc (calls : list ThrottleCall) (c : ThrottleCall) :
  throttle_run (calls ++ [c]) = throttle (throttle_run calls) c.
Proof. unfold throttle_run. now rewrite fold_left_app. Qed.

Lemma throttle_run_flag (calls : list ThrottleCall) :
  Scraper.rate_limited (throttle_run calls)
  = match calls with [] => false | _ :: _ => true end.
Proof.
  destruct calls as [|c calls] using rev_ind; [reflexivity|].
  rewrite throttle_run_snoc, throttle_sets_flag.
  destruct calls; reflexivity.
Qed.

Lemma last_n_length {A : Type} (n : nat) (l : list A) :
  List.length (last_n n l) = Nat.min n (List.length l).
Proof. unfold last_n. rewrite length_skipn. lia. Qed.

Lemma tl_skipn {A : Type} (n : nat) (l : list A) :
  tl (skipn n l) = skipn (S n) l.
Proof. revert l; induction n; intros [|a l]; simpl; auto. Qed.

Lemma skipn_snoc {A : Type} (n : nat) (l : list A) (x : A) :
  n <= List.length l -> skipn n (l ++ [x]) = skipn n l ++ [x].
Proof.
  intros H. rewrite skipn_app.
  replace (n - List.length l) with 0 by lia. reflexivity.
Qed.

Lemma last_n_snoc {A : Type} (l : list A) (x : A) :
  (let appended := last_n 5 l ++ [x] in
   if Nat.ltb 5 (List.length appended) then tl appended else appended)
  = last_n 5 (l ++ [x]).
Proof.
  cbv zeta. rewrite length_app, last_n_length. cbn [List.length].
  unfold last_n. rewrite length_app. cbn [List.length].
  destruct (Nat.ltb_spec 5 (Nat.min 5 (List.length l) + 1)) as [H|H].
  - replace (List.length l + 1 - 5) with (S (List.length l - 5)) by lia.
    rewrite <- tl_skipn, skipn_snoc by lia. reflexivity.
  - replace (List.length l - 5) with 0 by lia.
    replace (List.length l + 1 - 5) with 0 by lia. reflexivity.
Qed.

Lemma throttle_run_window (calls : list ThrottleCall) :
  Scraper.rate_calc (throttle_run calls) = last_n 5 (map sample_of calls).
Proof.
  induction calls as [|c calls IH] using rev_ind; [reflexivity|].
  rewrite throttle_run_snoc, throttle_window, throttle_run_flag, IH.
  rewrite map_app. cbn [map].
  destruct calls as [|c0 calls]; [reflexivity|].
  apply last_n_snoc.
Qed.

End Throttling.

(** C7. After any run of throttles on a fresh scraper the window holds at
    most 5 samples, and they are the last 5 recorded (all of them when
    fewer were recorded); a throttle that finds the flag down sets it,
    leaves exactly its own sample in the window and reports nothing. *)
Theorem throttle_window_invariant :
  (forall calls,
      List.length (Scraper.rate_calc (throttle_run calls)) <= 5
      /\ Scraper.rate_calc (throttle_run calls)
         = last_n 5 (map sample_of calls))
  /\ (forall stale now p_cur p_max,
        Scraper.hit_rate_limit
          {| Scraper.rate_limited := false; Scraper.rate_calc := stale |}
          now p_cur p_max
        = ({| Scraper.rate_limited := true;
              Scraper.rate_calc := [{| time := now; requests := p_cur |}] |},
           inr None)).
Proof.
  split.
  - intros calls. rewrite throttle_run_window, last_n_length. split; [lia|].
    reflexivity.
  - reflexivity.
Qed.

(** ** The throttled flag *)

Section Flag.

Variable site : BaseSite.

Lemma hit_rate_limit_flag (sc : Scraper.state) (now : Q) (p_cur p_max : Z) :
  Scraper.rate_limited (fst (Scraper.hit_rate_limit sc now p_cur p_max)) = true.
Proof.
  apply (throttle_sets_flag sc
           {| call_now := now; call_cur := p_cur; call_max := p_max |}).
Qed.

Lemma status_code_429_flag (sc : Scraper.state) (now : Q) (p_cur p_max : Z) :
  Scraper.rate_limited (fst (Scraper.status_code_429 sc now p_cur p_max))
  = true.
Proof.
  unfold Scraper.status_code_429.
  pose proof (hit_rate_limit_flag sc now p_cur p_max) as H.
  destruct (Scraper.hit_rate_limit sc now p_cur p_max) as [sc' [e|r]]; exact H.
Qed.

Lemma get_word_count_flag (thread : Thread) (p_cur p_max : Z) (w : World)
    (sc : Scraper.state) :
  Scraper.rate_limited sc = true ->
  Scraper.rate_limited
    (snd (fst (Scraper.get_word_count site thread p_cur p_max sc w))) = true.
Proof.
  revert sc. induction w as [|x w IH]; intros sc Hsc; [exact Hsc|].
  cbn [Scraper.get_word_count].
  destruct (reply x) as [code page_text|msg]; [|exact Hsc].
  destruct (code =? 404)%Z; [exact Hsc|].
  destruct (code =? 429)%Z.
  - pose proof (status_code_429_flag sc (clock x) p_cur p_max) as H.
    destruct (Scraper.status_code_429 sc (clock x) p_cur p_max)
      as [sc' [e|u]]; [exact H | now apply IH].
  - destruct (contains _ _); exact Hsc.
Qed.

Lemma retrieve_from_flag (i : nat) (p_max : Z) (threads : list Thread)
    (sc : Scraper.state) (w : World) :
  Scraper.rate_limited sc = true ->
  Scraper.rate_limited
    (snd (fst (Scraper.retrieve_from site i p_max threads sc w))) = true.
Proof.
  revert i sc w.
  induction threads as [|t rest IH]; intros i sc w Hsc; [exact Hsc|].
  cbn [Scraper.retrieve_from].
  pose proof (get_word_count_flag t (Z.of_nat i + 1) p_max w sc Hsc) as H.
  destruct (Scraper.get_word_count site t (Z.of_nat i + 1) p_max sc w)
    as [[o sc'] w']. cbn [fst snd] in H.
  destruct o as [wc|e|]; [| |exact H];
    specialize (IH (S i) sc' w' H);
    destruct (Scraper.retrieve_from site (S i) p_max rest sc' w')
      as [[out sc''] w'']; exact IH.
Qed.

Lemma exec_flag (sc : Scraper.state) (op : Op) :
  Scraper.rate_limited sc = true ->
  Scraper.rate_limited (exec site sc op) = true.
Proof.
  intros Hsc. destruct op; cbn [exec].
  - exact Hsc.
  - apply hit_rate_limit_flag.
  - apply status_code_429_flag.
  - now apply get_word_count_flag.
  - now apply retrieve_from_flag.
Qed.

Lemma get_word_count_unthrottled (thread : Thread) (p_cur p_max : Z)
    (w : World) (sc : Scraper.state) :
  existsb throttled_reply w = false ->
  snd (fst (Scraper.get_word_count site thread p_cur p_max sc w)) = sc.
Proof.
  destruct w as [|x w]; [reflexivity|].
  cbn [existsb Scraper.get_word_count]. unfold throttled_reply at 1.
  intros H. apply orb_false_iff in H as [Hx _].
  destruct (reply x) as [code page_text|msg]; [|reflexivity].
  rewrite Hx. destruct (code =? 404)%Z; [reflexivity|].
  destruct (contains _ _); reflexivity.
Qed.

Lemma get_word_count_world (thread : Thread) (p_cur p_max : Z)
    (w : World) (sc : Scraper.state) :
  existsb throttled_reply w = false ->
  existsb throttled_reply
    (snd (Scraper.get_word_count site thread p_cur p_max sc w)) = false.
Proof.
  destruct w as [|x w]; [reflexivity|].
  cbn [existsb Scraper.get_word_count]. unfold throttled_reply at 1.
  intros H. apply orb_false_iff in H as [Hx Hw].
  destruct (reply x) as [code page_text|msg]; [|exact Hw].
  rewrite Hx. destruct (code =? 404)%Z; [exact Hw|].
  destruct (contains _ _); exact Hw.
Qed.

Lemma retrieve_from_unthrottled (i : nat) (p_max : Z) (threads : list Thread)
    (sc : Scraper.state) (w : World) :
  existsb throttled_reply w = false ->
  snd (fst (Scraper.retrieve_from site i p_max threads sc w)) = sc.
Proof.
  revert i sc w.
  induction threads as [|t rest IH]; intros i sc w Hw; [reflexivity|].
  cbn [Scraper.retrieve_from].
  pose proof (get_word_count_unthrottled t (Z.of_nat i + 1) p_max w sc Hw) as H.
  pose proof (get_word_count_world t (Z.of_nat i + 1) p_max w sc Hw) as H'.
  destruct (Scraper.get_word_count site t (Z.of_nat i + 1) p_max sc w)
    as [[o sc'] w']. cbn [fst snd] in H, H'. subst sc'.
  destruct o as [wc|e|]; [| |reflexivity];
    specialize (IH (S i) sc w' H');
    destruct (Scraper.retrieve_from site (S i) p_max rest sc w')
      as [[out sc''] w'']; exact IH.
Qed.

End Flag.

(** C8. Through any sequence of scraper operations a raised throttled flag
    stays raised; an operation that meets no throttle event leaves the
    scraper's fields as they were, raised or lowered, and so does any
    sequence of such operations: the flag is written on throttle events
    only, and only to raise it. *)
Theorem rate_limited_never_cleared (site : BaseSite) :
  (forall ops sc,
      Scraper.rate_limited sc = true ->
      Scraper.rate_limited (fold_left (exec site) ops sc) = true)
  /\ (forall sc op, throttles op = false -> exec site sc op = sc)
  /\ (forall ops sc,
        forallb (fun op => negb (throttles op)) ops = true ->
        fold_left (exec site) ops sc = sc).
Proof.
  assert (Hframe : forall sc op, throttles op = false -> exec site sc op = sc).
  { intros sc [| | | |]; cbn [throttles exec]; intros H; try discriminate.
    - reflexivity.
    - now apply get_word_count_unthrottled.
    - now apply retrieve_from_unthrottled. }
  split; [|split].
  - induction ops as [|op ops IH]; intros sc Hsc; [exact Hsc|].
    cbn [fold_left]. apply IH. now apply exec_flag.
  - exact Hframe.
  - induction ops as [|op ops IH]; intros sc Hall; [reflexivity|].
    cbn [forallb] in Hall. apply andb_true_iff in Hall as [Hop Hall].
    apply negb_true_iff in Hop.
    cbn [fold_left]. rewrite (Hframe sc op Hop). now apply IH.
Qed.

Lemma rate_limited_never_cleared_example :
  let up := {| Scraper.rate_limited := true; Scraper.rate_calc := [] |} in
  let ok := {| reply := Http 200 "Statistics (3 threadmarks, 12k words)";
               clock := 0 |} in
  let gone := {| reply := Http 404 EmptyString; clock := 0 |} in
  let busy := {| reply := Http 429 EmptyString; clock := 7 # 1 |} in
  let t := new_Thread "A" "http://a" in
  Scraper.rate_limited
    (fold_left (exec SV_site)
       [GetWordCount t 1 2 [busy; ok]; ParseIndexPage [] "s" "e" None;
        RetrieveWordCounts [t; t] [ok; busy; busy; ok]] up) = true
  /\ exec SV_site up (RetrieveWordCounts [t; t] [ok; ok]) = up
  /\ fold_left (exec SV_site)
       [GetWordCount t 1 2 [gone]; ParseIndexPage [] "s" "e" None;
        RetrieveWordCounts [t; t] [ok; gone]] Scraper.init = Scraper.init.
Proof.
  intros up ok gone busy t.
  destruct (rate_limited_never_cleared SV_site) as (Hkeep & Hframe & Hrun).
  split; [|split].
  - apply Hkeep. reflexivity.
  - apply Hframe. reflexivity.
  - apply Hrun. reflexivity.
Defined.

(** ** The orchestrator *)

Section Orchestrator.

Local Open Scope list_scope.

Variable site : BaseSite.

Lemma retrieve_from_settles (p_max : Z) (threads : list Thread) :
  forall (i : nat) (sc : Scraper.state) (w : World),
    Forall returns_or_raises (fetches site i p_max threads sc w) ->
    List.length (fetches site i p_max threads sc w) = List.length threads
    /\ fst (fst (Scraper.retrieve_from site i p_max threads sc w))
       = Some (settle_all threads (fetches site i p_max threads sc w)).
Proof.
  induction threads as [|t rest IH]; intros i sc w Hall; [now split|].
  cbn [fetches Scraper.retrieve_from] in *.
  destruct (Scraper.get_word_count site t (Z.of_nat i + 1) p_max sc w)
    as [[o sc'] w'].
  destruct o as [wc|e|].
  - inversion Hall as [|? ? _ Hrest]; subst.
    destruct (IH (S i) sc' w' Hrest) as [Hlen Hout].
    destruct (Scraper.retrieve_from site (S i) p_max rest sc' w')
      as [[out sc''] w'']. cbn [fst] in Hout |- *. subst out.
    cbn [List.length]. now rewrite Hlen.
  - inversion Hall as [|? ? _ Hrest]; subst.
    destruct (IH (S i) sc' w' Hrest) as [Hlen Hout].
    destruct (Scraper.retrieve_from site (S i) p_max rest sc' w')
      as [[out sc''] w'']. cbn [fst] in Hout |- *. subst out.
    cbn [List.length]. now rewrite Hlen.
  - inversion Hall as [|? ? Hb _]. now destruct Hb.
Qed.

Lemma settle_all_nth (threads : list Thread) (os : list (Outcome string))
    (k : nat) (t : Thread) (o : Outcome string) :
  nth_error threads k = Some t -> nth_error os k = Some o ->
  nth_error (settle_all threads os) k = Some (settle t o).
Proof.
  revert os k. induction threads as [|t0 rest IH]; intros [|o0 os] [|k];
    simpl; try discriminate.
  - now intros [= ->] [= ->].
  - apply IH.
Qed.

Lemma settle_all_length (threads : list Thread) (os : list (Outcome string)) :
  List.length os = List.length threads ->
  List.length (settle_all threads os) = List.length threads.
Proof.
  intros H. unfold settle_all. rewrite length_map, length_combine. lia.
Qed.

(** A reply that is not a throttle ends the fetch at once. *)
Lemma get_word_count_unthrottled_head (t : Thread) (p_cur p_max : Z)
    (sc : Scraper.state) (x : Exchange) (w : World) :
  throttled_reply x = false ->
  exists o,
    o <> Blocked
    /\ Scraper.get_word_count site t p_cur p_max sc (x :: w) = (o, sc, w).
Proof.
  unfold throttled_reply. cbn [Scraper.get_word_count].
  destruct (reply x) as [code page_text|msg].
  - intros ->. destruct (code =? 404)%Z; [eexists; split; [|reflexivity];
      discriminate|].
    destruct (contains _ _); eexists; (split; [|reflexivity]); discriminate.
  - intros _. eexists; split; [|reflexivity]. discriminate.
Qed.

(** Without throttling, one reply per thread is enough for every fetch to
    return or raise. *)
Lemma fetches_unthrottled (p_max : Z) (threads : list Thread) :
  forall (i : nat) (sc : Scraper.state) (w : World),
    existsb throttled_reply w = false ->
    List.length threads <= List.length w ->
    Forall returns_or_raises (fetches site i p_max threads sc w).
Proof.
  induction threads as [|t rest IH]; intros i sc w Hw Hlen; [constructor|].
  destruct w as [|x w]; [simpl in Hlen; lia|].
  cbn [existsb] in Hw. apply orb_false_iff in Hw as [Hx Hw].
  destruct (get_word_count_unthrottled_head t (Z.of_nat i + 1) p_max sc x w Hx)
    as (o & Ho & E).
  cbn [fetches]. rewrite E.
  assert (Hrest : Forall returns_or_raises (fetches site (S i) p_max rest sc w)).
  { apply IH; [exact Hw | simpl in Hlen; lia]. }
  destruct o; [constructor; assumption | constructor; assumption | congruence].
Qed.

End Orchestrator.

(** C4. When every fetch of the run returns or raises, the run finishes
    with one record per thread: a thread whose fetch raised is left as it
    was (a default word count stays "-1"), and every other thread, before
    or after it, carries the result of its own fetch. *)
Theorem retrieve_word_counts_tolerates_failure
    (site : BaseSite) (threads : list Thread) (sc : Scraper.state) (w : World) :
  let os := fetches site 0 (Z.of_nat (List.length threads)) threads sc w in
  Forall returns_or_raises os ->
  exists out,
    fst (fst (Scraper.retrieve_word_counts site threads sc w)) = Some out
    /\ List.length out = List.length threads
    /\ List.length os = List.length threads
    /\ (forall k t e,
          nth_error threads k = Some t -> nth_error os k = Some (Raised e) ->
          nth_error out k = Some t)
    /\ (forall k t wc,
          nth_error threads k = Some t -> nth_error os k = Some (Returned wc) ->
          nth_error out k = Some (Scraper.store_word_count t wc)).
Proof.
  intros os Hall.
  destruct (retrieve_from_settles site _ threads 0 sc w Hall) as [Hlen Hout].
  exists (settle_all threads os). repeat split.
  - exact Hout.
  - now apply settle_all_length.
  - exact Hlen.
  - intros k t e Ht Ho. apply (settle_all_nth threads os k t _ Ht Ho).
  - intros k t wc Ht Ho. apply (settle_all_nth threads os k t _ Ht Ho).
Qed.

Lemma retrieve_word_counts_tolerates_failure_example :
  let gone := {| reply := Http 404 EmptyString; clock := 0 |} in
  let ok := {| reply := Http 200 "Statistics (3 threadmarks, 12k words)";
               clock := 0 |} in
  let a := new_Thread "A" "http://a" in
  let b := new_Thread "B" "http://b" in
  exists out,
    fst (fst (Scraper.retrieve_word_counts SV_site [a; b] Scraper.init
                [gone; ok])) = Some out
    /\ nth_error out 0 = Some a
    /\ nth_error out 1
       = Some {| name := "B"; url := "http://b";
                 word_count := "3 threadmarks, 12k " |}.
Proof.
  intros gone ok a b.
  assert (Hall : Forall returns_or_raises
                   (fetches SV_site 0 (Z.of_nat (List.length [a; b])) [a; b]
                      Scraper.init [gone; ok])).
  { repeat constructor; discriminate. }
  destruct (retrieve_word_counts_tolerates_failure SV_site [a; b]
              Scraper.init [gone; ok] Hall)
    as (out & Hout & _ & _ & Hraised & Hreturned).
  exists out. split; [exact Hout|]. split.
  - exact (Hraised 0 a (Exception404 "http://a/threadmarks") eq_refl eq_refl).
  - exact (Hreturned 1 b "3 threadmarks, 12k " eq_refl eq_refl).
Defined.

(** ** Output safety *)

Lemma replace_char_removes (c : ascii) (s : string) :
  has_char c (replace_char c EmptyString s) = false.
Proof.
  induction s as [|d s IH]; [reflexivity|]. simpl.
  destruct (Ascii.eqb d c) eqn:E; simpl; [exact IH|]. now rewrite E.
Qed.


(** A thread whose fetch returned holds no newline in its name or in its
    word count. *)
Lemma store_word_count_no_newline (t : Thread) (wc : string) :
  has_char newline (name (Scraper.store_word_count t wc)) = false
  /\ has_char newline (word_count (Scraper.store_word_count t wc)) = false.
Proof. split; apply replace_char_removes. Qed.

(** C5 (the code departs from it). A thread whose fetch raises skips the
    newline stripping: with an anchor text that holds a newline and a 404
    reply, the record written for it holds that newline. *)
Theorem run_scraper_qq_newline_in_record :
  let index :=
    [anchor "Complete Detachment (Star Wars Prequel SI)"
       "https://qq/threads/a.1";
     anchor ("Two" ++ String newline "Lines") "https://qq/threads/b.2"] in
  let w := [{| reply := Http 404 EmptyString; clock := 0 |}] in
  let record := "Two" ++ String newline "Lines|https://qq/threads/b.2|-1" in
  run_scraper_qq index w = Some [line_of record]
  /\ has_char newline record = true.
Proof. split; vm_compute; reflexivity. Qed.

(** ** The matcher on the constructs of the companion filter's pattern *)

Section Matcher.

Import Re.

Variable g : groups.

Lemma matched_orelse (a b : option groups) :
  matched (orelse a b) = matched a || matched b.
Proof. destruct a; reflexivity. Qed.

Lemma matched_run_Cls (p : ascii -> bool) (s : string) (k : cont) :
  matched (run (Cls p) s g k) = true
  <-> exists d s', s = String d s' /\ p d = true /\ matched (k s' g) = true.
Proof.
  destruct s as [|d s']; cbn [run].
  - split; [discriminate | intros (? & ? & ? & _); discriminate].
  - destruct (p d) eqn:E; split.
    + intros H. now exists d, s'.
    + now intros (? & ? & [= <- <-] & _ & H).
    + discriminate.
    + intros (? & ? & [= <- <-] & H & _). congruence.
Qed.

Lemma matched_run_Chr (c : ascii) (s : string) (k : cont) :
  matched (run (Chr c) s g k) = true
  <-> exists s', s = String c s' /\ matched (k s' g) = true.
Proof.
  destruct s as [|d s']; cbn [run].
  - split; [discriminate | intros (? & ? & _); discriminate].
  - destruct (Ascii.eqb_spec d c) as [->|Hne]; split.
    + intros H. now exists s'.
    + now intros (? & [= <-] & H).
    + discriminate.
    + intros (? & [= -> _] & _). congruence.
Qed.

Lemma matched_run_Lit (l s : string) (k : cont) :
  matched (run (Lit l) s g k) = true
  <-> exists s', s = l ++ s' /\ matched (k s' g) = true.
Proof.
  revert s k. induction l as [|c l IH]; intros s k; cbn [Lit].
  - cbn [run]. split; [intros H; now exists s | now intros (? & -> & H)].
  - change (run (Cat (Chr c) (Lit l)) s g k)
      with (run (Chr c) s g (fun s1 g1 => run (Lit l) s1 g1 k)).
    rewrite matched_run_Chr. split.
    + intros (s1 & -> & H). apply IH in H as (s' & -> & H). now exists s'.
    + intros (s' & -> & H). exists (l ++ s'). split; [reflexivity|].
      apply IH. now exists s'.
Qed.

Lemma matched_lazy_star_Cls (p : ascii -> bool) (k : cont) :
  forall (fuel : nat) (s : string),
    String.length s <= fuel ->
    matched (star_loop (run (Cls p)) false fuel s g k) = true
    <-> exists pre rest,
          s = pre ++ rest /\ all_chars p pre = true
          /\ matched (k rest g) = true.
Proof.
  induction fuel as [|fuel IH]; intros s Hlen.
  - destruct s; [|simpl in Hlen; lia]. cbn [star_loop]. split.
    + intros H. now exists EmptyString, EmptyString.
    + intros (pre & rest & E & _ & H). destruct pre; [|discriminate].
      simpl in E. now subst rest.
  - cbn [star_loop]. rewrite matched_orelse, orb_true_iff, matched_run_Cls.
    split.
    + intros [H | (d & s' & -> & Hd & H)].
      * now exists EmptyString, s.
      * simpl in Hlen. cbn [String.length] in H.
        rewrite (proj2 (Nat.ltb_lt _ _) (Nat.lt_succ_diag_r _)) in H.
        apply IH in H as (pre & rest & -> & Hpre & H); [|lia].
        exists (String d pre), rest. cbn [all_chars]. now rewrite Hd.
    + intros (pre & rest & -> & Hpre & H). destruct pre as [|d pre].
      * now left.
      * right. cbn [all_chars] in Hpre.
        apply andb_true_iff in Hpre as [Hd Hpre].
        exists d, (pre ++ rest). repeat split; auto.
        cbn [String.length append].
        rewrite (proj2 (Nat.ltb_lt _ _) (Nat.lt_succ_diag_r _)).
        simpl in Hlen. apply IH; [lia|]. now exists pre, rest.
Qed.

(** [.+?] followed by [k]. *)
Lemma matched_lazy_plus_dot (s : string) (k : cont) :
  matched (run (Plus false (Cls dot)) s g k) = true
  <-> exists field rest,
        s = field ++ rest /\ field <> EmptyString /\ all_chars dot field = true
        /\ matched (k rest g) = true.
Proof.
  change (run (Plus false (Cls dot)) s g k)
    with (run (Cls dot) s g
            (fun s1 g1 =>
               star_loop (run (Cls dot)) false (String.length s1) s1 g1 k)).
  rewrite matched_run_Cls. split.
  - intros (d & s' & -> & Hd & H).
    apply matched_lazy_star_Cls in H as (pre & rest & -> & Hpre & H); [|lia].
    exists (String d pre), rest. cbn [all_chars]. rewrite Hd.
    repeat split; auto. discriminate.
  - intros (field & rest & -> & Hne & Hall & H).
    destruct field as [|d pre]; [congruence|].
    cbn [all_chars] in Hall. apply andb_true_iff in Hall as [Hd Hpre].
    exists d, (pre ++ rest). repeat split; auto.
    apply matched_lazy_star_Cls; [lia|]. now exists pre, rest.
Qed.

End Matcher.

Lemma all_chars_dot (s : string) :
  all_chars Re.dot s = true <-> has_char newline s = false.
Proof.
  induction s as [|c s IH]; cbn [all_chars has_char]; [tauto|].
  unfold Re.dot at 1. rewrite andb_true_iff, orb_false_iff, negb_true_iff.
  tauto.
Qed.

(** ** The companion filter *)

Section Filter.

Import Re.

Let accept : cont := fun _ g => Some g.

(** The last [.+?] of the pattern asks for one character before the end
    of the line and nothing more. *)
Lemma matched_url_body (g : groups) (r : string) :
  matched (run (Plus false (Cls dot)) r g accept) = true
  <-> exists c tail, r = String c tail /\ c <> newline.
Proof.
  rewrite matched_lazy_plus_dot. split.
  - intros (field & rest & -> & Hne & Hall & _).
    destruct field as [|c pre]; [congruence|].
    exists c, (pre ++ rest). split; [reflexivity|].
    cbn [all_chars] in Hall. apply andb_true_iff in Hall as [Hc _].
    unfold dot in Hc. apply negb_true_iff, Ascii.eqb_neq in Hc. exact Hc.
  - intros (c & tail & -> & Hc). exists (String c EmptyString), tail.
    repeat split; [discriminate|].
    cbn [all_chars]. unfold dot. apply Ascii.eqb_neq in Hc. now rewrite Hc.
Qed.

Lemma keeps_unfolded (line : string) :
  Cleanup.keeps line
  = matched
      (run (Plus false (Cls dot)) line []
         (fun s1 g1 =>
            run (Chr bar) s1 g1
              (fun s2 g2 =>
                 run (Lit "http") s2 g2
                   (fun s3 g3 =>
                      orelse
                        (run (Chr "s") s3 g3
                           (fun s4 g4 =>
                              run (Lit "://") s4 g4
                                (fun s5 g5 =>
                                   run (Plus false (Cls dot)) s5 g5 accept)))
                        (run (Lit "://") s3 g3
                           (fun s5 g5 =>
                              run (Plus false (Cls dot)) s5 g5 accept)))))).
Proof. reflexivity. Qed.

Lemma keeps_looks_like_record (line : string) :
  Cleanup.keeps line = true <-> looks_like_record line.
Proof.
  rewrite keeps_unfolded. unfold looks_like_record. split.
  - intros H.
    apply matched_lazy_plus_dot in H as (field & rest & -> & Hne & Hall & H).
    apply all_chars_dot in Hall.
    apply matched_run_Chr in H as (r1 & -> & H).
    apply matched_run_Lit in H as (r2 & -> & H).
    rewrite matched_orelse in H. apply orb_true_iff in H as [H|H].
    + apply matched_run_Chr in H as (r3 & -> & H).
      apply matched_run_Lit in H as (r4 & -> & H).
      apply matched_url_body in H as (c & tail & -> & Hc).
      exists field, "https", c, tail. repeat split; auto.
    + apply matched_run_Lit in H as (r4 & -> & H).
      apply matched_url_body in H as (c & tail & -> & Hc).
      exists field, "http", c, tail. repeat split; auto.
  - intros (field & scheme & c & tail & -> & Hne & Hnl & Hscheme & Hc).
    apply matched_lazy_plus_dot.
    exists field, ("|" ++ scheme ++ "://" ++ String c tail).
    repeat split; auto; [now apply all_chars_dot|].
    apply matched_run_Chr. exists (scheme ++ "://" ++ String c tail).
    split; [reflexivity|].
    assert (Hbody : matched (run (Plus false (Cls dot)) (String c tail) []
                               accept) = true).
    { apply matched_url_body. now exists c, tail. }
    destruct Hscheme as [-> | ->]; apply matched_run_Lit.
    + exists ("://" ++ String c tail). split; [reflexivity|].
      rewrite matched_orelse. apply orb_true_iff. right.
      apply matched_run_Lit. now exists (String c tail).
    + exists ("s://" ++ String c tail). split; [reflexivity|].
      rewrite matched_orelse. apply orb_true_iff. left.
      apply matched_run_Chr. exists ("://" ++ String c tail).
      split; [reflexivity|].
      apply matched_run_Lit. now exists (String c tail).
Qed.

Lemma has_char_append (c : ascii) (a b : string) :
  has_char c (a ++ b) = has_char c a || has_char c b.
Proof.
  induction a as [|d a IH]; [reflexivity|]. simpl.
  now rewrite IH, orb_assoc.
Qed.

Lemma keeps_needs_bar (line : string) :
  has_char bar line = false -> Cleanup.keeps line = false.
Proof.
  intros Hbar. destruct (Cleanup.keeps line) eqn:E; [|reflexivity].
  apply keeps_looks_like_record in E
    as (field & scheme & c & tail & -> & _).
  rewrite has_char_append in Hbar. apply orb_false_iff in Hbar as [_ Hbar].
  discriminate Hbar.
Qed.

End Filter.

(** C9 (as amended). The filter selects, in order, exactly the lines that
    start with a non-empty field, a bar and an HTTP(S) URL, and writes
    each selected line trimmed and ended by a newline: it keeps the record
    line of the scenario and drops the blank line; a line without a bar is
    always dropped. *)
Theorem cleanup_output_keeps_records :
  (forall lines,
      Cleanup.cleanup_output lines
      = map (fun line => line_of (strip line)) (filter Cleanup.keeps lines))
  /\ (forall line, Cleanup.keeps line = true <-> looks_like_record line)
  /\ Cleanup.cleanup_output
       [line_of "Title|https://example.com/threads/x.1/|8 threadmarks, 24k";
        line_of EmptyString]
     = [line_of "Title|https://example.com/threads/x.1/|8 threadmarks, 24k"]
  /\ (forall line, has_char bar line = false -> Cleanup.keeps line = false).
Proof.
  split; [reflexivity|]. split; [exact keeps_looks_like_record|].
  split; [vm_compute; reflexivity | exact keeps_needs_bar].
Qed.

Lemma cleanup_output_keeps_records_example :
  looks_like_record "Title|https://example.com/threads/x.1/|8 threadmarks, 24k"
  /\ Cleanup.keeps (line_of EmptyString) = false.
Proof.
  destruct cleanup_output_keeps_records as (_ & Hshape & _ & Hbar).
  split.
  - apply (proj1 (Hshape _)). vm_compute. reflexivity.
  - apply Hbar. vm_compute. reflexivity.
Defined.

(** C9 as stated fails: a record line that holds "into some problems" is
    kept, and a kept line is written trimmed, so that what is written need
    be neither the line read nor a line the pattern matches. *)
Lemma cleanup_output_keeps_problem_line :
  let problem :=
    line_of
      "Title|https://example.com/threads/x.1/|Oops! We ran into some problems."
  in
  contains "into some problems" problem = true
  /\ Cleanup.cleanup_output [problem] = [problem]
  /\ Cleanup.cleanup_output [line_of " |http://x"] = [line_of "|http://x"]
  /\ Cleanup.keeps (line_of "|http://x") = false.
Proof. repeat split; vm_compute; reflexivity. Qed.

(* ================================================================== *)
(** * Further properties of the code *)

(** ** The usefulness filter and the enumeration *)

Lemma strip_empty : strip EmptyString = EmptyString.
Proof. reflexivity. Qed.

Lemma is_link_useful_inv (link_raw : option string) (link_text_raw : string) :
  Scraper._is_link_useful link_raw link_text_raw = true ->
  exists raw,
    link_raw = Some raw
    /\ startswith "http" (strip raw) = true
    /\ strip link_text_raw <> EmptyString
    /\ contains "Sufficiently Velocity" (strip link_text_raw) = false
    /\ contains "into a problem" (strip link_text_raw) = false.
Proof.
  unfold Scraper._is_link_useful.
  destruct link_raw as [raw|]; [|discriminate].
  destruct (String.eqb raw EmptyString || String.eqb link_text_raw EmptyString);
    [discriminate|].
  destruct (startswith "http" (strip raw)) eqn:Hh; [|discriminate].
  cbn [negb orb].
  destruct (mem (strip raw) urls_to_ignore); [discriminate|]. cbn [orb].
  destruct (String.eqb_spec (strip link_text_raw) EmptyString);
    [discriminate|]. cbn [orb].
  destruct (contains "Sufficiently Velocity" (strip link_text_raw));
    [discriminate|]. cbn [orb].
  destruct (contains "into a problem" (strip link_text_raw));
    [discriminate|].
  intros _. exists raw. repeat split; auto.
Qed.

(** X1. [_is_link_useful] accepts an anchor exactly when its href is
    present and, trimmed, starts with "http", and its text, trimmed, is
    not empty and holds neither boilerplate phrase. The ignore-list and
    the tests for an empty raw href or text never decide: a link that
    starts with "http" cannot equal the ignore-list's relative path. *)
Theorem is_link_useful_iff (link_raw : option string) (link_text_raw : string) :
  Scraper._is_link_useful link_raw link_text_raw = true
  <-> exists raw,
        link_raw = Some raw
        /\ startswith "http" (strip raw) = true
        /\ strip link_text_raw <> EmptyString
        /\ contains "Sufficiently Velocity" (strip link_text_raw) = false
        /\ contains "into a problem" (strip link_text_raw) = false.
Proof.
  split; [apply is_link_useful_inv|].
  intros (raw & -> & Hh & Htext & Hsv & Hpb).
  assert (Hraw : String.eqb raw EmptyString = false).
  { apply String.eqb_neq. intros ->. discriminate Hh. }
  assert (Htxt : String.eqb link_text_raw EmptyString = false).
  { apply String.eqb_neq. intros ->. now apply Htext. }
  unfold Scraper._is_link_useful.
  rewrite Hraw, Htxt, Hh, (startswith_http_not_ignored _ Hh), Hsv, Hpb.
  apply String.eqb_neq in Htext. now rewrite Htext.
Qed.

Lemma after_start_absent (start_link : string) (links : list Anchor) :
  Forall (fun a => text a <> start_link) links ->
  after_start start_link links = [].
Proof.
  induction 1 as [|a links Ha _ IH]; [reflexivity|]. simpl.
  apply String.eqb_neq in Ha. now rewrite Ha.
Qed.

(** X2. When no anchor of the page carries the start marker's text,
    [parse_index_page] collects nothing: it returns the carried-forward
    threads as they are (the empty list when there are none). *)
Theorem parse_index_page_without_start (links : list Anchor)
    (start_link end_link : string) (prev_threads : option (list Thread)) :
  Forall (fun a => text a <> start_link) links ->
  Scraper.parse_index_page links start_link end_link prev_threads
  = match prev_threads with Some prev => prev | None => [] end.
Proof.
  intros H. rewrite parse_index_page_spec. unfold spec_enumerate.
  rewrite (after_start_absent _ _ H). cbn [filter map through_end].
  apply app_nil_r.
Qed.

Lemma parse_index_page_without_start_example :
  Scraper.parse_index_page
    [anchor "Keep" "http://b"; anchor "End" "http://c"] "Start" "End"
    (Some [new_Thread "Old" "http://o"])
  = [new_Thread "Old" "http://o"].
Proof.
  apply (parse_index_page_without_start
           [anchor "Keep" "http://b"; anchor "End" "http://c"] "Start" "End"
           (Some [new_Thread "Old" "http://o"])).
  repeat constructor; discriminate.
Defined.

(** X3. Every thread [parse_index_page] collects is well formed: its name
    is not blank and holds no delimiter, its URL is not empty, and its
    word count is the default "-1". *)
Theorem parse_index_page_well_formed (links : list Anchor)
    (start_link end_link : string) :
  Forall (fun t => strip (name t) <> EmptyString
                   /\ name t <> EmptyString
                   /\ has_char bar (name t) = false
                   /\ url t <> EmptyString
                   /\ word_count t = "-1")
    (Scraper.parse_index_page links start_link end_link None).
Proof.
  rewrite parse_index_page_spec. apply Forall_forall. intros t Ht.
  apply through_end_incl, in_map_iff in Ht as (a & <- & Ha).
  apply filter_In in Ha as [_ Hq].
  apply andb_true_iff in Hq as [_ Hu].
  pose proof (useful_url_accepted _ _ Hu) as (Hhref & Hhttp & _).
  apply is_link_useful_inv in Hu as (raw & Hraw & _ & Htext & _).
  cbn [to_thread new_Thread name url word_count].
  repeat split.
  - exact Htext.
  - intros E. rewrite E in Htext. now apply Htext.
  - apply replace_char_removes.
  - intros E. rewrite E in Hhttp. discriminate Hhttp.
Qed.

Lemma through_end_last (end_link : string) (ts pre : list Thread)
    (t : Thread) (post : list Thread) :
  through_end end_link ts = (pre ++ t :: post)%list ->
  name t = end_link -> post = [].
Proof.
  revert pre. induction ts as [|t0 ts IH]; intros pre E Hname; simpl in E.
  - now destruct pre.
  - destruct (String.eqb_spec (name t0) end_link) as [H0|H0].
    + destruct pre as [|p pre]; simpl in E.
      * now injection E as _ <-.
      * injection E as _ E. now destruct pre.
    + destruct pre as [|p pre]; simpl in E.
      * injection E as <- _. congruence.
      * injection E as _ E. now apply (IH pre).
Qed.

(** X4. The enumeration stops at the end marker: in the list
    [parse_index_page] returns for a page, a thread named as the end marker
    can only be the last one. *)
Theorem parse_index_page_end_is_last (links : list Anchor)
    (start_link end_link : string) (pre : list Thread) (t : Thread)
    (post : list Thread) :
  Scraper.parse_index_page links start_link end_link None
  = (pre ++ t :: post)%list ->
  name t = end_link ->
  post = [].
Proof.
  rewrite parse_index_page_spec. cbn [app]. unfold spec_enumerate.
  apply through_end_last.
Qed.

Lemma parse_index_page_end_is_last_example :
  Scraper.parse_index_page
    [anchor "Start" "http://a"; anchor "Keep" "http://b";
     anchor "End" "http://c"; anchor "Late" "http://d"] "Start" "End" None
  = [new_Thread "Keep" "http://b"; new_Thread "End" "http://c"]
  /\ @nil Thread = [].
Proof.
  split; [reflexivity|].
  exact (parse_index_page_end_is_last
           [anchor "Start" "http://a"; anchor "Keep" "http://b";
            anchor "End" "http://c"; anchor "Late" "http://d"]
           "Start" "End" [new_Thread "Keep" "http://b"]
           (new_Thread "End" "http://c") [] eq_refl eq_refl).
Defined.

(** ** What a fetch returns *)

Lemma replace_char_absent (c : ascii) (s : string) :
  has_char c s = false -> replace_char c EmptyString s = s.
Proof.
  induction s as [|d s IH]; [reflexivity|]. simpl.
  destruct (Ascii.eqb d c); [discriminate|]. intros H.
  cbn [orb] in H. now rewrite IH.
Qed.

(** A returned word count is what the site's extraction makes of the
    page text without its newlines. *)
Lemma get_word_count_returned (site : BaseSite) (thread : Thread)
    (p_cur p_max : Z) (w : World) :
  forall (sc : Scraper.state) (wc : string) (sc' : Scraper.state) (w' : World),
    Scraper.get_word_count site thread p_cur p_max sc w = (Returned wc, sc', w') ->
    exists page_text,
      wc = get_word_count_text site (replace_char newline EmptyString page_text).
Proof.
  induction w as [|x w IH]; intros sc wc sc' w'; [discriminate|].
  cbn [Scraper.get_word_count].
  destruct (reply x) as [code page_text|msg]; [|discriminate].
  destruct (code =? 404)%Z; [discriminate|].
  destruct (code =? 429)%Z.
  - destruct (Scraper.status_code_429 sc (clock x) p_cur p_max)
      as [sc1 [e|u]]; [discriminate | apply IH].
  - destruct (contains _ _); [discriminate|].
    intros [= <- _ _]. now exists page_text.
Qed.

Lemma SV_get_word_count_text_clean (text : string) :
  has_char newline text = false ->
  SV.get_word_count_text text <> EmptyString
  /\ has_char newline (SV.get_word_count_text text) = false.
Proof.
  intros Hnl. pose proof (SV_get_word_count_text_sound text) as H.
  remember (SV.get_word_count_text text) as r eqn:Er. clear Er.
  destruct H as [_ | i _ _ | pre post _ _ | pre token post E _ _ Hne];
    try (split; [discriminate | reflexivity]).
  split; [exact Hne|].
  rewrite E, !has_char_append in Hnl.
  repeat (apply orb_false_iff in Hnl as [? Hnl]). assumption.
Qed.

(** X5. On the SV profile a word count that [get_word_count] returns is
    never empty and holds no newline, so the newline stripping of
    [retrieve_word_counts] stores it unchanged. *)
Theorem get_word_count_SV_clean (thread : Thread) (p_cur p_max : Z)
    (sc : Scraper.state) (w : World) (wc : string) (sc' : Scraper.state)
    (w' : World) :
  Scraper.get_word_count SV_site thread p_cur p_max sc w
  = (Returned wc, sc', w') ->
  wc <> EmptyString
  /\ has_char newline wc = false
  /\ word_count (Scraper.store_word_count thread wc) = wc.
Proof.
  intros H. apply get_word_count_returned in H as [page_text ->].
  cbn [get_word_count_text SV_site].
  destruct (SV_get_word_count_text_clean
              (replace_char newline EmptyString page_text)
              (replace_char_removes newline page_text)) as [Hne Hnl].
  repeat split; auto. cbn [Scraper.store_word_count word_count].
  now apply replace_char_absent.
Qed.

Lemma get_word_count_SV_clean_example :
  "3 threadmarks, 12k " <> EmptyString
  /\ has_char newline "3 threadmarks, 12k " = false
  /\ word_count (Scraper.store_word_count (new_Thread "A" "http://a")
                   "3 threadmarks, 12k ") = "3 threadmarks, 12k ".
Proof.
  exact (get_word_count_SV_clean (new_Thread "A" "http://a") 1 1 Scraper.init
           [{| reply := Http 200
                 ("Statistics (3 threadmarks," ++ String newline " 12k words)");
               clock := 0 |}]
           "3 threadmarks, 12k " Scraper.init [] eq_refl).
Defined.

(** ** Float rounding *)

Section FloatRounding.

Lemma float_round_zero (q : Q) :
  (q == 0)%Q -> Scraper.float_round q = 0%Q.
Proof.
  unfold Qeq. cbn [Qnum Qden]. rewrite Z.mul_1_r, Z.mul_0_l. intros H.
  unfold Scraper.float_round. now rewrite H.
Qed.

Lemma round_half_even_lower (n d : Z) :
  (Scraper.round_half_even n d >= n / d)%Z.
Proof.
  unfold Scraper.round_half_even.
  destruct (2 * (n mod d) ?= d)%Z; [destruct (Z.even (n / d))| |]; lia.
Qed.

(** The scaled value is at least 1 for every exponent up to the one
    [float_round_pos] starts from plus one. *)
Lemma scaled_at_least_one (a b : positive) (e : Z) :
  (e <= Z.log2 (Zpos a) - Z.log2 (Zpos b) - 1)%Z ->
  (Scraper.scaled_den b e <= Scraper.scaled_num a e)%Z.
Proof.
  intros He. unfold Scraper.scaled_num, Scraper.scaled_den.
  pose proof (Z.log2_spec (Zpos a) ltac:(lia)) as [Ha _].
  pose proof (Z.log2_spec (Zpos b) ltac:(lia)) as [_ Hb].
  pose proof (Z.log2_nonneg (Zpos a)) as Hla.
  pose proof (Z.log2_nonneg (Zpos b)) as Hlb.
  destruct (Z.le_ge_cases 0 e) as [Hpos|Hneg].
  - rewrite (Z.max_r 0 e) by lia. rewrite (Z.max_l 0 (- e)) by lia.
    rewrite Z.pow_0_r, Z.mul_1_r.
    apply Z.le_trans with (2 ^ Z.log2 (Zpos a))%Z; [|exact Ha].
    apply Z.le_trans with (2 ^ (Z.succ (Z.log2 (Zpos b)) + e))%Z.
    + rewrite Z.pow_add_r by lia.
      apply Z.mul_le_mono_nonneg_r; [apply Z.pow_nonneg|]; lia.
    + apply Z.pow_le_mono_r; lia.
  - rewrite (Z.max_l 0 e) by lia. rewrite (Z.max_r 0 (- e)) by lia.
    rewrite Z.pow_0_r, Z.mul_1_r.
    apply Z.le_trans with (2 ^ (Z.log2 (Zpos a) + - e))%Z.
    + apply Z.le_trans with (2 ^ Z.succ (Z.log2 (Zpos b)))%Z; [lia|].
      apply Z.pow_le_mono_r; lia.
    + rewrite Z.pow_add_r by lia.
      apply Z.mul_le_mono_nonneg_r; [apply Z.pow_nonneg|]; lia.
Qed.

Lemma float_round_pos_positive (a b : positive) :
  (0 < Scraper.float_round_pos a b)%Q.
Proof.
  unfold Scraper.float_round_pos.
  set (e0 := (Z.log2 (Zpos a) - Z.log2 (Zpos b) - 53)%Z).
  set (e := if (2 ^ 53 * Scraper.scaled_den b e0 <=? Scraper.scaled_num a e0)%Z
            then (e0 + 1)%Z else e0).
  assert (He : (e <= Z.log2 (Zpos a) - Z.log2 (Zpos b) - 1)%Z).
  { unfold e. destruct (_ <=? _)%Z; unfold e0; lia. }
  pose proof (scaled_at_least_one a b e He) as Hge.
  assert (Hden : (0 < Scraper.scaled_den b e)%Z).
  { unfold Scraper.scaled_den. apply Z.mul_pos_pos; [lia|].
    apply Z.pow_pos_nonneg; lia. }
  pose proof (round_half_even_lower (Scraper.scaled_num a e)
                (Scraper.scaled_den b e)) as Hm.
  assert (Hq : (1 <= Scraper.scaled_num a e / Scraper.scaled_den b e)%Z).
  { apply Z.div_le_lower_bound; lia. }
  unfold Qlt. cbn [Qnum Qden]. rewrite Z.mul_0_l, Z.mul_1_r.
  apply Z.mul_pos_pos; [lia|]. apply Z.pow_pos_nonneg; lia.
Qed.

Lemma float_round_positive (q : Q) :
  (0 < q)%Q -> (0 < Scraper.float_round q)%Q.
Proof.
  unfold Qlt at 1. cbn [Qnum Qden]. rewrite Z.mul_0_l, Z.mul_1_r. intros H.
  unfold Scraper.float_round. destruct (Qnum q) as [|a|a]; try lia.
  apply float_round_pos_positive.
Qed.

Lemma float_round_nonneg (q : Q) :
  (0 <= q)%Q -> (0 <= Scraper.float_round q)%Q.
Proof.
  unfold Qle at 1. cbn [Qnum Qden]. rewrite Z.mul_0_l, Z.mul_1_r. intros H.
  unfold Scraper.float_round. destruct (Qnum q) as [|a|a]; try lia.
  - apply Qle_refl.
  - apply Qlt_le_weak, float_round_pos_positive.
Qed.

End FloatRounding.

(** ** Division by zero in the rate estimator *)

Section ZeroDivision.

Local Open Scope list_scope.

Let origin : RateLimitPoint := {| time := 0; requests := 0 |}.

Lemma is_zero_stalled (p : Z) (dt : Q) :
  Scraper.is_zero
    (Scraper.float_round (Scraper.float_round (inject_Z (p - p)) / dt)) = true.
Proof.
  rewrite Z.sub_diag. rewrite float_round_zero; [reflexivity|].
  rewrite (float_round_zero (inject_Z 0)) by reflexivity.
  unfold Qdiv. apply Qmult_0_l.
Qed.

Lemma is_zero_same_time (a b : Q) :
  (a == b)%Q -> Scraper.is_zero (Scraper.float_round (b - a)) = true.
Proof.
  intros H. rewrite float_round_zero; [reflexivity|].
  rewrite H. unfold Qminus. apply Qplus_opp_r.
Qed.

(** The report on a window whose oldest sample has the request index or
    the time of the latest one. *)
Lemma rate_report_zero_division (oldest : RateLimitPoint)
    (rest : list RateLimitPoint) (p_cur p_max : Z) :
  let latest := last (oldest :: rest) origin in
  requests oldest = requests latest \/ (time oldest == time latest)%Q ->
  Scraper.rate_report (oldest :: rest) p_cur p_max = inl ZeroDivisionError.
Proof.
  intros latest H. unfold Scraper.rate_report. fold origin. fold latest.
  destruct (Scraper.is_zero
              (Scraper.float_round (time latest - time oldest))) eqn:Hdt;
    [reflexivity|].
  destruct H as [H|H].
  - rewrite H, is_zero_stalled. reflexivity.
  - rewrite (is_zero_same_time _ _ H) in Hdt. discriminate Hdt.
Qed.

Lemma last_snoc {A : Type} (l : list A) (x d : A) : last (l ++ [x]) d = x.
Proof.
  induction l as [|a l IH]; [reflexivity|].
  cbn [app]. destruct (l ++ [x]) eqn:E; [now destruct l|].
  exact IH.
Qed.

Lemma last_tl_snoc {A : Type} (l : list A) (x d : A) :
  l <> [] -> last (tl (l ++ [x])) d = x.
Proof.
  destruct l as [|a l]; [congruence|]. intros _. cbn [app tl].
  apply last_snoc.
Qed.

Lemma window_after_last (window : list RateLimitPoint) (s : RateLimitPoint) :
  last (window_after window s) origin = s.
Proof.
  unfold window_after.
  destruct (Nat.ltb_spec 5 (List.length (window ++ [s]))) as [H|H].
  - apply last_tl_snoc. intros ->. simpl in H. lia.
  - apply last_snoc.
Qed.

Lemma window_after_length (window : list RateLimitPoint) (s : RateLimitPoint) :
  List.length window <= 5 ->
  List.length (window_after window s) <= 5
  /\ 1 <= List.length (window_after window s).
Proof.
  intros Hlen. unfold window_after.
  destruct (Nat.ltb_spec 5 (List.length (window ++ [s]))) as [H|H];
    rewrite length_app in H; cbn [List.length] in H.
  - destruct window as [|a window]; [simpl in H; lia|].
    cbn [app tl]. rewrite length_app. cbn [List.length] in *. lia.
  - rewrite length_app. cbn [List.length]. lia.
Qed.

Lemma hit_rate_limit_flagged (sc : Scraper.state) (now : Q) (p_cur p_max : Z) :
  Scraper.rate_limited sc = true ->
  let s := {| time := now; requests := p_cur |} in
  let window := window_after (Scraper.rate_calc sc) s in
  Scraper.hit_rate_limit sc now p_cur p_max
  = ({| Scraper.rate_limited := true; Scraper.rate_calc := window |},
     match Scraper.rate_report window p_cur p_max with
     | inl e => inl e
     | inr r => inr (Some r)
     end).
Proof.
  intros Hflag s window. unfold Scraper.hit_rate_limit.
  rewrite Hflag. cbn [negb]. fold s. fold (window_after (Scraper.rate_calc sc) s).
  fold window. destruct (Scraper.rate_report window p_cur p_max); reflexivity.
Qed.

End ZeroDivision.

(** X6. A throttle that finds the flag up raises [ZeroDivisionError]
    whenever the oldest sample it retains has the current request index
    (no progress over the window) or the current clock reading. The sample
    is recorded all the same: the scraper is left with the flag up and the
    window extended (and trimmed to five), the new sample last. *)
Theorem hit_rate_limit_zero_division (sc : Scraper.state) (now : Q)
    (p_cur p_max : Z) (oldest : RateLimitPoint) :
  let sample := {| time := now; requests := p_cur |} in
  let window := window_after (Scraper.rate_calc sc) sample in
  Scraper.rate_limited sc = true ->
  hd_error window = Some oldest ->
  requests oldest = p_cur \/ (time oldest == now)%Q ->
  Scraper.hit_rate_limit sc now p_cur p_max
  = ({| Scraper.rate_limited := true; Scraper.rate_calc := window |},
     inl ZeroDivisionError)
  /\ last window {| time := 0; requests := 0 |} = sample
  /\ In sample
       (Scraper.rate_calc (fst (Scraper.hit_rate_limit sc now p_cur p_max))).
Proof.
  intros sample window Hflag Hhd H.
  pose proof (window_after_last (Scraper.rate_calc sc) sample) as Hlast.
  fold window in Hlast.
  assert (Hin : In sample window).
  { rewrite <- Hlast. destruct window as [|first rest]; [discriminate|].
    destruct (@exists_last _ (first :: rest)) as (l & a & E);
      [discriminate|].
    rewrite E, last_snoc. apply in_or_app. right. now left. }
  rewrite (hit_rate_limit_flagged sc now p_cur p_max Hflag).
  fold sample. fold window. cbn [fst Scraper.rate_calc].
  repeat split; auto.
  destruct window as [|first rest]; [discriminate|].
  injection Hhd as ->.
  rewrite rate_report_zero_division; [reflexivity|].
  cbv zeta. rewrite Hlast. exact H.
Qed.

Lemma hit_rate_limit_zero_division_example :
  Scraper.hit_rate_limit
    {| Scraper.rate_limited := true;
       Scraper.rate_calc := [{| time := 3 # 1; requests := 7 |}] |}
    (8 # 1) 7 20
  = ({| Scraper.rate_limited := true;
        Scraper.rate_calc := [{| time := 3 # 1; requests := 7 |};
                              {| time := 8 # 1; requests := 7 |}] |},
     inl ZeroDivisionError).
Proof.
  refine (proj1 (hit_rate_limit_zero_division
                   {| Scraper.rate_limited := true;
                      Scraper.rate_calc := [{| time := 3 # 1; requests := 7 |}] |}
                   (8 # 1) 7 20 {| time := 3 # 1; requests := 7 |}
                   eq_refl eq_refl _)).
  left. reflexivity.
Defined.

(** ** The retry loop under sustained throttling *)

Section SustainedThrottling.

Local Open Scope list_scope.

Variable site : BaseSite.
Variable thread : Thread.
Variables p_cur p_max : Z.

Let stalled (l : list RateLimitPoint) : Prop :=
  Forall (fun s => requests s = p_cur) l.

Lemma stalled_window_raises (window : list RateLimitPoint) :
  window <> [] -> stalled window ->
  Scraper.rate_report window p_cur p_max = inl ZeroDivisionError.
Proof.
  intros Hne Hall. destruct window as [|first rest]; [congruence|].
  apply rate_report_zero_division. left.
  unfold stalled in Hall. rewrite Forall_forall in Hall.
  rewrite (Hall first (or_introl eq_refl)).
  symmetry. apply Hall.
  destruct rest as [|r rest]; [now left|].
  pose proof (@exists_last _ (first :: r :: rest)) as Hex.
  destruct Hex as (l' & a & E); [discriminate|].
  rewrite E, last_snoc. apply in_or_app. right. now left.
Qed.

Lemma throttled_reply_inv (x : Exchange) :
  throttled_reply x = true ->
  exists page_text, reply x = Http 429 page_text.
Proof.
  unfold throttled_reply. destruct (reply x) as [code page_text|msg];
    [|discriminate].
  intros H. apply Z.eqb_eq in H. subst code. now exists page_text.
Qed.

(** One throttle, seen from [get_word_count]: it raises
    [ZeroDivisionError] or goes on with the next reply. *)
Lemma get_word_count_throttled (sc : Scraper.state) (x : Exchange) (w : World) :
  Scraper.rate_limited sc = true ->
  throttled_reply x = true ->
  let window :=
    window_after (Scraper.rate_calc sc)
      {| time := clock x; requests := p_cur |} in
  let sc' := {| Scraper.rate_limited := true; Scraper.rate_calc := window |} in
  Scraper.get_word_count site thread p_cur p_max sc (x :: w)
  = match Scraper.rate_report window p_cur p_max with
    | inl e => (Raised e, sc', w)
    | inr _ => Scraper.get_word_count site thread p_cur p_max sc' w
    end.
Proof.
  intros Hflag Hx window sc'.
  destruct (throttled_reply_inv x Hx) as [page_text E].
  cbn [Scraper.get_word_count]. rewrite E.
  change (429 =? 404)%Z with false. change (429 =? 429)%Z with true.
  cbv iota. unfold Scraper.status_code_429.
  rewrite (hit_rate_limit_flagged sc (clock x) p_cur p_max Hflag).
  fold window. fold sc'.
  destruct (Scraper.rate_report window p_cur p_max); reflexivity.
Qed.

Lemma rate_report_raises_only_zero_division (window : list RateLimitPoint)
    (e : Exn) :
  Scraper.rate_report window p_cur p_max = inl e -> e = ZeroDivisionError.
Proof.
  unfold Scraper.rate_report. destruct window as [|first rest].
  - now intros [= <-].
  - destruct (Scraper.is_zero _); [now intros [= <-]|].
    destruct (Scraper.is_zero _); [now intros [= <-] | discriminate].
Qed.

(** The samples of the window split into those older than the current
    run of throttles and the stalled ones appended by it; every throttle
    that does not raise brings the window closer to being all stalled. *)
Lemma sustained_throttling_raises (n : nat) :
  forall (sc : Scraper.state) (old new : list RateLimitPoint)
         (ws rest : World),
    Scraper.rate_limited sc = true ->
    Scraper.rate_calc sc = old ++ new ->
    stalled new ->
    List.length (old ++ new) <= 5 ->
    5 - List.length (old ++ new) + List.length old <= n ->
    List.length ws = n -> 1 <= n ->
    forallb throttled_reply ws = true ->
    fst (fst (Scraper.get_word_count site thread p_cur p_max sc (ws ++ rest)))
    = Raised ZeroDivisionError.
Proof.
  induction n as [|n IH]; intros sc old new ws rest Hflag Hwin Hnew Hlen Hm
    Hws Hn Hall; [lia|].
  destruct ws as [|x ws]; [discriminate|].
  cbn [forallb] in Hall. apply andb_true_iff in Hall as [Hx Hall].
  cbn [app]. rewrite (get_word_count_throttled sc x (ws ++ rest) Hflag Hx).
  set (s := {| time := clock x; requests := p_cur |}).
  destruct (Scraper.rate_report (window_after (Scraper.rate_calc sc) s)
              p_cur p_max) as [e|r] eqn:Hrep.
  { apply rate_report_raises_only_zero_division in Hrep. now subst e. }
  assert (Hs : stalled (new ++ [s])).
  { apply Forall_app. split; [exact Hnew|]. now constructor. }
  rewrite Hwin in Hrep. unfold window_after in Hrep |- *. rewrite Hwin.
  rewrite <- app_assoc in Hrep |- *.
  rewrite !length_app in *. cbn [List.length] in *.
  destruct (Nat.ltb_spec 5
              (List.length old + (List.length new + 1))) as [Hfull|Hroom].
  - destruct old as [|o old].
    + exfalso. cbn [app] in Hrep.
      rewrite stalled_window_raises in Hrep; [discriminate| |].
      * destruct new as [|a new]; [simpl in Hfull; lia|].
        cbn [app tl]. intros E. apply app_eq_nil in E as [_ E]. discriminate.
      * destruct new as [|a new]; [simpl in Hfull; lia|].
        cbn [app tl]. inversion Hs; assumption.
    + cbn [app tl] in Hrep |- *.
      destruct old as [|o' old].
      * exfalso. cbn [app] in Hrep.
        rewrite stalled_window_raises in Hrep; [discriminate| |exact Hs].
        intros E. apply app_eq_nil in E as [_ E]. discriminate.
      * apply (IH _ (o' :: old) (new ++ [s])); auto;
          cbn [Scraper.rate_calc List.length] in *;
          rewrite ?length_app; cbn [List.length] in *; try lia.
  - destruct old as [|o old].
    + exfalso. cbn [app] in Hrep.
      rewrite stalled_window_raises in Hrep; [discriminate| |exact Hs].
      intros E. apply app_eq_nil in E as [_ E]. discriminate.
    + apply (IH _ (o :: old) (new ++ [s])); auto;
        cbn [Scraper.rate_calc List.length] in *;
        rewrite ?length_app; cbn [List.length] in *; try lia.
Qed.

End SustainedThrottling.

Lemma get_word_count_first_throttle (site : BaseSite) (thread : Thread)
    (p_cur p_max : Z) (sc : Scraper.state) (x : Exchange) (w : World) :
  Scraper.rate_limited sc = false ->
  throttled_reply x = true ->
  Scraper.get_word_count site thread p_cur p_max sc (x :: w)
  = Scraper.get_word_count site thread p_cur p_max
      {| Scraper.rate_limited := true;
         Scraper.rate_calc := [{| time := clock x; requests := p_cur |}] |} w.
Proof.
  intros Hflag Hx. destruct (throttled_reply_inv x Hx) as [page_text E].
  cbn [Scraper.get_word_count]. rewrite E.
  change (429 =? 404)%Z with false. change (429 =? 429)%Z with true.
  cbv iota. unfold Scraper.status_code_429, Scraper.hit_rate_limit.
  rewrite Hflag. reflexivity.
Qed.

Lemma five_throttles_raise
    (site : BaseSite) (thread : Thread) (p_cur p_max : Z)
    (sc : Scraper.state) (ws rest : World) :
  (List.length (Scraper.rate_calc sc) <= 5)%nat ->
  List.length ws = 5%nat ->
  forallb throttled_reply ws = true ->
  fst (fst (Scraper.get_word_count site thread p_cur p_max sc (ws ++ rest)%list))
  = Raised ZeroDivisionError.
Proof.
  intros Hlen Hws Hall. destruct (Scraper.rate_limited sc) eqn:Hflag.
  - apply (sustained_throttling_raises site thread p_cur p_max 5 sc
             (Scraper.rate_calc sc) []);
      rewrite ?app_nil_r; auto; try lia; try constructor.
  - destruct ws as [|x ws]; [discriminate|].
    cbn [forallb] in Hall. apply andb_true_iff in Hall as [Hx Hall].
    cbn [app]. rewrite (get_word_count_first_throttle _ _ _ _ sc x _ Hflag Hx).
    apply (sustained_throttling_raises site thread p_cur p_max 4 _
             [] [{| time := clock x; requests := p_cur |}]); auto;
      try (simpl in Hws |- *; lia); try (repeat constructor).
Qed.

(** X7. The retry loop of [get_word_count] is bounded: on a scraper whose
    window holds at most five samples, five throttle replies in a row make
    the call raise [ZeroDivisionError], whatever the clock readings, the
    thread and the replies that would follow; [retrieve_word_counts] then
    leaves that thread as it was and goes on with the next one. *)
Theorem get_word_count_gives_up_after_five_throttles
    (site : BaseSite) (thread : Thread) (i : nat) (p_max : Z)
    (sc : Scraper.state) (ws rest : World) (others : list Thread) :
  (List.length (Scraper.rate_calc sc) <= 5)%nat ->
  List.length ws = 5%nat ->
  forallb throttled_reply ws = true ->
  exists sc' w',
    Scraper.get_word_count site thread (Z.of_nat i + 1) p_max sc
      (ws ++ rest)%list
    = (Raised ZeroDivisionError, sc', w')
    /\ Scraper.retrieve_from site i p_max (thread :: others) sc
         (ws ++ rest)%list
       = (let '(out, sc'', w'') :=
            Scraper.retrieve_from site (S i) p_max others sc' w' in
          (option_map (cons thread) out, sc'', w'')).
Proof.
  intros Hlen Hws Hall.
  pose proof (five_throttles_raise site thread (Z.of_nat i + 1) p_max sc
                ws rest Hlen Hws Hall) as H.
  cbn [Scraper.retrieve_from].
  destruct (Scraper.get_word_count site thread (Z.of_nat i + 1) p_max sc
              (ws ++ rest)%list) as [[o sc'] w'].
  cbn [fst] in H. subst o. exists sc', w'. split; [reflexivity|].
  destruct (Scraper.retrieve_from site (S i) p_max others sc' w')
    as [[out sc''] w'']. reflexivity.
Qed.

Lemma get_word_count_gives_up_after_five_throttles_example :
  let busy := fun t => {| reply := Http 429 EmptyString; clock := t # 1 |} in
  let ok := {| reply := Http 200 "Statistics (3 threadmarks, 12k words)";
               clock := 0 |} in
  let a := new_Thread "A" "http://a" in
  let b := new_Thread "B" "http://b" in
  fst (fst (Scraper.retrieve_from SV_site 3 9 [a; b]
              {| Scraper.rate_limited := true;
                 Scraper.rate_calc := [{| time := 0; requests := 1 |};
                                       {| time := 5 # 1; requests := 2 |}] |}
              [busy 10%Z; busy 15%Z; busy 20%Z; busy 25%Z; busy 30%Z; ok]))
  = Some [a; {| name := "B"; url := "http://b";
                word_count := "3 threadmarks, 12k " |}].
Proof.
  intros busy ok a b.
  destruct (get_word_count_gives_up_after_five_throttles SV_site a 3 9
              {| Scraper.rate_limited := true;
                 Scraper.rate_calc := [{| time := 0; requests := 1 |};
                                       {| time := 5 # 1; requests := 2 |}] |}
              [busy 10%Z; busy 15%Z; busy 20%Z; busy 25%Z; busy 30%Z] [ok] [b])
    as (sc' & w' & Hget & Hloop).
  - simpl. lia.
  - reflexivity.
  - reflexivity.
  - vm_compute in Hget. injection Hget as <- <-.
    cbn [app] in Hloop. rewrite Hloop. vm_compute. reflexivity.
Defined.

Lemma get_word_count_blocked (site : BaseSite) (thread : Thread)
    (p_cur p_max : Z) (w : World) :
  forall (sc sc' : Scraper.state) (w' : World),
    Scraper.get_word_count site thread p_cur p_max sc w = (Blocked, sc', w') ->
    forallb throttled_reply w = true /\ w' = [].
Proof.
  induction w as [|x w IH]; intros sc sc' w'.
  - intros [= _ <-]. now split.
  - cbn [Scraper.get_word_count forallb]. unfold throttled_reply at 1.
    destruct (reply x) as [code page_text|msg]; [|discriminate].
    destruct (code =? 404)%Z; [discriminate|].
    destruct (code =? 429)%Z.
    + destruct (Scraper.status_code_429 sc (clock x) p_cur p_max)
        as [sc1 [e|u]]; [discriminate|]. apply IH.
    + destruct (contains _ _); discriminate.
Qed.

Lemma forallb_firstn {A : Type} (p : A -> bool) (n : nat) (l : list A) :
  forallb p l = true -> forallb p (firstn n l) = true.
Proof.
  revert l. induction n as [|n IH]; intros [|a l]; simpl; auto.
  intros H. apply andb_true_iff in H as [Ha Hl]. rewrite Ha. now apply IH.
Qed.

(** X8. [get_word_count] comes back, with a result or an exception,
    whenever the replies to come hold one that is not a throttle, or hold
    five or more of any kind (the window holding at most five samples):
    the call can only hang on fewer than five throttles in a row. *)
Theorem get_word_count_returns_or_raises
    (site : BaseSite) (thread : Thread) (p_cur p_max : Z)
    (sc : Scraper.state) (w : World) :
  (List.length (Scraper.rate_calc sc) <= 5)%nat ->
  forallb throttled_reply w = false \/ (5 <= List.length w)%nat ->
  returns_or_raises
    (fst (fst (Scraper.get_word_count site thread p_cur p_max sc w))).
Proof.
  intros Hlen Hw Hblocked.
  destruct (Scraper.get_word_count site thread p_cur p_max sc w)
    as [[o sc'] w'] eqn:E. cbn [fst] in Hblocked. subst o.
  destruct (get_word_count_blocked _ _ _ _ _ _ _ _ E) as [Hall _].
  destruct Hw as [Hw|Hw]; [congruence|].
  pose proof (five_throttles_raise site thread
                p_cur p_max sc (firstn 5 w) (skipn 5 w) Hlen) as H.
  rewrite firstn_skipn, E, length_firstn in H. cbn [fst] in H.
  pose proof (forallb_firstn throttled_reply 5 w Hall) as Hfirst.
  specialize (H ltac:(lia) Hfirst). discriminate H.
Qed.

Lemma get_word_count_returns_or_raises_example :
  returns_or_raises
    (fst (fst (Scraper.get_word_count SV_site (new_Thread "A" "http://a") 1 1
                 Scraper.init
                 [{| reply := Http 429 EmptyString; clock := 3 # 1 |};
                  {| reply := Http 404 EmptyString; clock := 0 |}]))).
Proof.
  apply (get_word_count_returns_or_raises SV_site (new_Thread "A" "http://a")
           1 1 Scraper.init
           [{| reply := Http 429 EmptyString; clock := 3 # 1 |};
            {| reply := Http 404 EmptyString; clock := 0 |}]).
  - simpl. lia.
  - left. reflexivity.
Defined.

(** ** The window across all operations *)

Section WindowBound.

Variable site : BaseSite.

Let bounded (sc : Scraper.state) : Prop :=
  (List.length (Scraper.rate_calc sc) <= 5)%nat.

Lemma hit_rate_limit_bounded (sc : Scraper.state) (now : Q) (p_cur p_max : Z) :
  bounded sc -> bounded (fst (Scraper.hit_rate_limit sc now p_cur p_max)).
Proof.
  unfold bounded. intros H.
  destruct (Scraper.rate_limited sc) eqn:Hflag.
  - rewrite (hit_rate_limit_flagged sc now p_cur p_max Hflag).
    cbn [fst Scraper.rate_calc]. now apply window_after_length.
  - unfold Scraper.hit_rate_limit. rewrite Hflag. simpl. lia.
Qed.

Lemma status_code_429_bounded (sc : Scraper.state) (now : Q) (p_cur p_max : Z) :
  bounded sc -> bounded (fst (Scraper.status_code_429 sc now p_cur p_max)).
Proof.
  intros H. unfold Scraper.status_code_429.
  pose proof (hit_rate_limit_bounded sc now p_cur p_max H) as H'.
  destruct (Scraper.hit_rate_limit sc now p_cur p_max) as [sc' [e|r]]; exact H'.
Qed.

Lemma get_word_count_bounded (thread : Thread) (p_cur p_max : Z) (w : World) :
  forall sc, bounded sc ->
    bounded (snd (fst (Scraper.get_word_count site thread p_cur p_max sc w))).
Proof.
  induction w as [|x w IH]; intros sc Hsc; [exact Hsc|].
  cbn [Scraper.get_word_count].
  destruct (reply x) as [code page_text|msg]; [|exact Hsc].
  destruct (code =? 404)%Z; [exact Hsc|].
  destruct (code =? 429)%Z.
  - pose proof (status_code_429_bounded sc (clock x) p_cur p_max Hsc) as H.
    destruct (Scraper.status_code_429 sc (clock x) p_cur p_max)
      as [sc' [e|u]]; [exact H | now apply IH].
  - destruct (contains _ _); exact Hsc.
Qed.

Lemma retrieve_from_bounded (p_max : Z) (threads : list Thread) :
  forall (i : nat) (sc : Scraper.state) (w : World),
    bounded sc ->
    bounded (snd (fst (Scraper.retrieve_from site i p_max threads sc w))).
Proof.
  induction threads as [|t rest IH]; intros i sc w Hsc; [exact Hsc|].
  cbn [Scraper.retrieve_from].
  pose proof (get_word_count_bounded t (Z.of_nat i + 1) p_max w sc Hsc) as H.
  destruct (Scraper.get_word_count site t (Z.of_nat i + 1) p_max sc w)
    as [[o sc'] w']. cbn [fst snd] in H.
  destruct o as [wc|e|]; [| |exact H];
    specialize (IH (S i) sc' w' H);
    destruct (Scraper.retrieve_from site (S i) p_max rest sc' w')
      as [[out sc''] w'']; exact IH.
Qed.

Lemma exec_bounded (sc : Scraper.state) (op : Op) :
  bounded sc -> bounded (exec site sc op).
Proof.
  intros Hsc. destruct op; cbn [exec].
  - exact Hsc.
  - now apply hit_rate_limit_bounded.
  - now apply status_code_429_bounded.
  - now apply get_word_count_bounded.
  - now apply retrieve_from_bounded.
Qed.

End WindowBound.

(** X9. Whatever operations a scraper goes through after its
    construction (enumerations, throttles, fetches, whole retrieval runs,
    however they end), its window never holds more than five samples. *)
Theorem window_never_exceeds_five (site : BaseSite) (ops : list Op) :
  (List.length (Scraper.rate_calc (fold_left (exec site) ops Scraper.init))
   <= 5)%nat.
Proof.
  assert (H : forall sc,
             (List.length (Scraper.rate_calc sc) <= 5)%nat ->
             (List.length (Scraper.rate_calc (fold_left (exec site) ops sc))
              <= 5)%nat).
  { induction ops as [|op ops IH]; intros sc Hsc; [exact Hsc|].
    cbn [fold_left]. apply IH. now apply exec_bounded. }
  apply H. simpl. lia.
Qed.

(** ** The report when progress was made *)

(** X10. When the oldest sample of the window is earlier than the latest
    and has a smaller request index, and the current index does not
    exceed the maximum, the report is made: the rate is the float quotient
    of the two differences and is positive, the ETA is the float quotient
    of the remaining requests by the rate and is not negative, and the ETA
    text is [fmt_sec] of the truncated ETA. *)
Theorem rate_report_progress (oldest : RateLimitPoint)
    (rest : list RateLimitPoint) (p_cur p_max : Z) :
  let latest := last (oldest :: rest) {| time := 0; requests := 0 |} in
  (time oldest < time latest)%Q ->
  (requests oldest < requests latest)%Z ->
  (p_cur <= p_max)%Z ->
  exists r,
    Scraper.rate_report (oldest :: rest) p_cur p_max = inr r
    /\ Scraper.rate r
       = Scraper.float_round
           (Scraper.float_round
              (inject_Z (requests latest - requests oldest))
            / Scraper.float_round (time latest - time oldest))%Q
    /\ Scraper.eta r
       = Scraper.float_round
           (Scraper.float_round (inject_Z (p_max - p_cur)) / Scraper.rate r)%Q
    /\ (0 < Scraper.rate r)%Q
    /\ (0 <= Scraper.eta r)%Q
    /\ Scraper.eta_text r = Scraper.fmt_sec (Scraper.int_of (Scraper.eta r)).
Proof.
  intros latest Ht Hr Hp.
  set (dt := Scraper.float_round (time latest - time oldest)%Q).
  set (dn := Scraper.float_round
               (inject_Z (requests latest - requests oldest))).
  set (rt := Scraper.float_round (dn / dt)%Q).
  set (et := Scraper.float_round
               (Scraper.float_round (inject_Z (p_max - p_cur)) / rt)%Q).
  assert (Hdt : (0 < dt)%Q).
  { apply float_round_positive. unfold Qminus.
    now apply (proj1 (Qlt_minus_iff _ _)). }
  assert (Hdn : (0 < dn)%Q).
  { apply float_round_positive.
    change 0%Q with (inject_Z 0). rewrite <- Zlt_Qlt. lia. }
  assert (Hrt : (0 < rt)%Q).
  { apply float_round_positive. unfold Qdiv.
    apply Qmult_lt_0_compat; [exact Hdn | now apply Qinv_lt_0_compat]. }
  assert (Het : (0 <= et)%Q).
  { apply float_round_nonneg. unfold Qdiv. apply Qmult_le_0_compat.
    - apply float_round_nonneg.
      change 0%Q with (inject_Z 0). rewrite <- Zle_Qle. lia.
    - apply Qinv_le_0_compat. now apply Qlt_le_weak. }
  assert (Hz : forall x, (0 < x)%Q -> Scraper.is_zero x = false).
  { intros x Hx. unfold Scraper.is_zero.
    destruct (Qeq_bool x 0) eqn:E; [|reflexivity].
    apply Qeq_bool_iff in E. apply Qlt_not_eq in Hx. symmetry in E.
    contradiction. }
  exists {| Scraper.rate := rt; Scraper.eta := et;
            Scraper.eta_text := Scraper.fmt_sec (Scraper.int_of et) |}.
  cbn [Scraper.rate Scraper.eta Scraper.eta_text].
  repeat split; auto.
  unfold Scraper.rate_report. fold latest. fold dt. rewrite (Hz dt Hdt).
  fold dn. fold rt. rewrite (Hz rt Hrt). reflexivity.
Qed.

Lemma rate_report_progress_example :
  exists r,
    Scraper.rate_report
      [{| time := 0; requests := 1 |}; {| time := 7 # 1; requests := 10 |}]
      10 19 = inr r
    /\ (0 < Scraper.rate r)%Q /\ (0 <= Scraper.eta r)%Q
    /\ Scraper.eta_text r = "00:00:06".
Proof.
  destruct (rate_report_progress {| time := 0; requests := 1 |}
              [{| time := 7 # 1; requests := 10 |}] 10 19)
    as (r & H1 & _ & _ & H2 & H3 & _).
  - reflexivity.
  - reflexivity.
  - discriminate.
  - exists r. repeat split; try assumption.
    vm_compute in H1. injection H1 as <-. reflexivity.
Defined.

(** ** What a retrieval run keeps *)

Lemma retrieve_from_keeps (site : BaseSite) (p_max : Z)
    (threads : list Thread) :
  forall (i : nat) (sc : Scraper.state) (w : World) (out : list Thread)
         (sc' : Scraper.state) (w' : World),
    Scraper.retrieve_from site i p_max threads sc w = (Some out, sc', w') ->
    Forall2 settled_from threads out.
Proof.
  induction threads as [|t rest IH]; intros i sc w out sc' w'.
  - intros [= <- _ _]. constructor.
  - cbn [Scraper.retrieve_from].
    destruct (Scraper.get_word_count site t (Z.of_nat i + 1) p_max sc w)
      as [[o sc1] w1].
    destruct o as [wc|e|]; [| |discriminate];
      destruct (Scraper.retrieve_from site (S i) p_max rest sc1 w1)
        as [[[out1|] sc2] w2] eqn:E; cbn [option_map]; try discriminate;
      intros [= <- _ _]; constructor; eauto.
    + right. now exists wc.
    + now left.
Qed.

Lemma settled_from_url (t t' : Thread) : settled_from t t' -> url t' = url t.
Proof. intros [->|[wc ->]]; reflexivity. Qed.

(** X11. A retrieval run that finishes hands back the same threads in the
    same order: as many records as threads, each either untouched or with
    a stored word count, and every URL as it was. *)
Theorem retrieve_word_counts_keeps_threads (site : BaseSite)
    (threads : list Thread) (sc : Scraper.state) (w : World)
    (out : list Thread) (sc' : Scraper.state) (w' : World) :
  Scraper.retrieve_word_counts site threads sc w = (Some out, sc', w') ->
  List.length out = List.length threads
  /\ map url out = map url threads
  /\ Forall2 settled_from threads out.
Proof.
  intros H. apply retrieve_from_keeps in H.
  split; [symmetry; eapply Forall2_length; eauto|]. split; [|exact H].
  induction H as [|t t' ts ts' Ht _ IH]; [reflexivity|].
  cbn [map]. now rewrite IH, (settled_from_url _ _ Ht).
Qed.

Lemma retrieve_word_counts_keeps_threads_example :
  let gone := {| reply := Http 404 EmptyString; clock := 0 |} in
  let ok := {| reply := Http 200 "Statistics (3 threadmarks, 12k words)";
               clock := 0 |} in
  let a := new_Thread "A" "http://a" in
  let b := new_Thread "B" "http://b" in
  map url [a; Scraper.store_word_count b "3 threadmarks, 12k "]
  = map url [a; b].
Proof.
  intros gone ok a b.
  exact (proj1 (proj2 (retrieve_word_counts_keeps_threads SV_site [a; b]
                         Scraper.init [gone; ok]
                         [a; Scraper.store_word_count b "3 threadmarks, 12k "]
                         Scraper.init [] eq_refl))).
Defined.

(** ** The duration format *)

Lemma fmt_02d_two_digits (n : Z) :
  (0 <= n < 100)%Z -> Scraper.fmt_02d n = two_digits n.
Proof.
  intros H. rewrite <- (Z2Nat.id n) by lia.
  assert (Hk : (Z.to_nat n < 100)%nat) by lia.
  generalize dependent (Z.to_nat n). clear. intros k Hk.
  do 100 (destruct k as [|k]; [vm_compute; reflexivity|]). lia.
Qed.

(** X12. For a duration below a hundred hours [fmt_sec] writes exactly
    "HH:MM:SS": two digits each for the whole hours, the minutes within
    the hour and the seconds within the minute, which add up to the
    duration. *)
Theorem fmt_sec_hh_mm_ss (sec : Z) :
  (0 <= sec < 360000)%Z ->
  let h := (sec / 3600)%Z in
  let m := ((sec / 60) mod 60)%Z in
  let s := (sec mod 60)%Z in
  Scraper.fmt_sec sec = two_digits h ++ ":" ++ two_digits m ++ ":" ++ two_digits s
  /\ String.length (Scraper.fmt_sec sec) = 8%nat
  /\ (h * 3600 + m * 60 + s = sec)%Z
  /\ (0 <= h < 100 /\ 0 <= m < 60 /\ 0 <= s < 60)%Z.
Proof.
  intros H h m s.
  assert (Hh : (sec / 60 / 60 = h)%Z).
  { unfold h. rewrite Z.div_div by lia. reflexivity. }
  assert (Hrange : (0 <= h < 100 /\ 0 <= m < 60 /\ 0 <= s < 60)%Z).
  { unfold h, m, s. repeat split;
      try (apply Z.mod_pos_bound; lia);
      try (apply Z.div_pos; lia).
    apply Z.div_lt_upper_bound; lia. }
  assert (Hfmt : Scraper.fmt_sec sec
                 = two_digits h ++ ":" ++ two_digits m ++ ":" ++ two_digits s).
  { unfold Scraper.fmt_sec. rewrite Hh. fold m. fold s.
    rewrite !fmt_02d_two_digits by lia. reflexivity. }
  repeat split; try apply Hrange; [exact Hfmt | now rewrite Hfmt |].
  unfold h, m, s.
  pose proof (Z.div_mod sec 60 ltac:(lia)) as H1.
  pose proof (Z.div_mod (sec / 60) 60 ltac:(lia)) as H2.
  rewrite Z.div_div in H2 by lia. change (60 * 60)%Z with 3600%Z in H2. lia.
Qed.

Lemma fmt_sec_hh_mm_ss_example :
  Scraper.fmt_sec 3725 = "01:02:05".
Proof.
  refine (proj1 (fmt_sec_hh_mm_ss 3725 _)).
  split; [discriminate | reflexivity].
Defined.

(** ** The filter and the scraper's records *)

Lemma append_cons (c : ascii) (a b : string) :
  String c a ++ b = String c (a ++ b).
Proof. reflexivity. Qed.





(** ** Trimming *)

Section Trimming.

Lemma lstrip_fixed (c : ascii) (s : string) :
  isspace c = false -> lstrip (String c s) = String c s.
Proof. intros H. cbn [lstrip]. now rewrite H. Qed.

Lemma lstrip_head (s : string) :
  lstrip s = EmptyString
  \/ exists c r, lstrip s = String c r /\ isspace c = false.
Proof.
  induction s as [|c s IH]; [now left|]. cbn [lstrip].
  destruct (isspace c) eqn:E; [exact IH|]. right. now exists c, s.
Qed.

Lemma rstrip_head (c : ascii) (s : string) :
  isspace c = false -> exists r, rstrip (String c s) = String c r.
Proof.
  intros H. cbn [rstrip]. destruct (rstrip s) as [|d r].
  - rewrite H. now exists EmptyString.
  - now exists (String d r).
Qed.

Lemma rstrip_idempotent (s : string) : rstrip (rstrip s) = rstrip s.
Proof.
  induction s as [|c s IH]; [reflexivity|]. cbn [rstrip].
  destruct (rstrip s) as [|d r] eqn:E.
  - destruct (isspace c) eqn:Hc; [reflexivity|]. cbn [rstrip]. now rewrite Hc.
  - cbn [rstrip]. cbn [rstrip] in IH. rewrite IH. reflexivity.
Qed.

Lemma strip_idempotent (s : string) : strip (strip s) = strip s.
Proof.
  unfold strip. destruct (lstrip_head s) as [E | (c & r & E & Hc)].
  - rewrite E. reflexivity.
  - rewrite E. destruct (rstrip_head c r Hc) as [r' E'].
    rewrite E', (lstrip_fixed c r' Hc), <- E'. apply rstrip_idempotent.
Qed.

Lemma has_char_lstrip (c : ascii) (s : string) :
  isspace c = false -> has_char c (lstrip s) = has_char c s.
Proof.
  intros Hc. induction s as [|d s IH]; [reflexivity|]. cbn [lstrip].
  destruct (isspace d) eqn:Hd; [|reflexivity].
  cbn [has_char]. destruct (Ascii.eqb_spec d c) as [->|_]; [congruence|].
  exact IH.
Qed.

Lemma has_char_rstrip (c : ascii) (s : string) :
  isspace c = false -> has_char c (rstrip s) = has_char c s.
Proof.
  intros Hc. induction s as [|d s IH]; [reflexivity|]. cbn [rstrip has_char].
  rewrite <- IH. destruct (rstrip s) as [|e r].
  - destruct (isspace d) eqn:Hd; cbn [has_char].
    + destruct (Ascii.eqb_spec d c) as [->|_]; [congruence | reflexivity].
    + reflexivity.
  - reflexivity.
Qed.

Lemma has_char_strip (c : ascii) (s : string) :
  isspace c = false -> has_char c (strip s) = has_char c s.
Proof.
  intros Hc. unfold strip. now rewrite has_char_rstrip, has_char_lstrip.
Qed.

End Trimming.

(** X14. Every line the filter writes is a trimmed text that holds a
    bar, followed by one newline: no blank line is written and none has
    blanks at its ends; it writes at most as many lines as it read. *)
Theorem cleanup_output_lines_trimmed (lines : list string) :
  Forall (fun out => exists body,
              out = line_of body
              /\ strip body = body
              /\ has_char bar body = true)
    (Cleanup.cleanup_output lines)
  /\ (List.length (Cleanup.cleanup_output lines) <= List.length lines)%nat.
Proof.
  split.
  - apply Forall_forall. intros out Hout.
    apply in_map_iff in Hout as (line & <- & Hline).
    apply filter_In in Hline as [_ Hkeep].
    exists (strip line). repeat split; [apply strip_idempotent|].
    rewrite has_char_strip by reflexivity.
    destruct (has_char bar line) eqn:E; [reflexivity|].
    rewrite (keeps_needs_bar line E) in Hkeep. discriminate Hkeep.
  - unfold Cleanup.cleanup_output. rewrite length_map. apply filter_length_le.
Qed.

(** ** The filter script and the file system *)

Section Script.

Import CleanupScript.

Lemma write_other (fs : FS) (path content p : string) :
  p <> path -> write fs path content p = fs p.
Proof.
  intros H. unfold write. apply String.eqb_neq in H. now rewrite H.
Qed.

Lemma write_same (fs : FS) (path content : string) :
  write fs path content path = Some content.
Proof. unfold write. now rewrite String.eqb_refl. Qed.

End Script.

(** X15. The filter script never touches a file other than the output
    file; it leaves the file system as it is when the input file is
    missing, and when the output file exists and overwriting is not
    forced; otherwise the output file holds the filtered lines of the
    input file. *)
Theorem main_is_safe (fs : CleanupScript.FS) (args : CleanupScript.Args) :
  let input := CleanupScript.input_file args in
  let output := CleanupScript.output_file args in
  (forall p, p <> output -> CleanupScript.main fs args p = fs p)
  /\ (fs input = None -> CleanupScript.main fs args = fs)
  /\ (fs output <> None -> CleanupScript.force args = false ->
      CleanupScript.main fs args = fs)
  /\ (forall content,
        fs input = Some content ->
        fs output = None \/ CleanupScript.force args = true ->
        CleanupScript.main fs args output
        = Some (CleanupScript.written
                  (Cleanup.cleanup_output (CleanupScript.readlines content)))).
Proof.
  intros input output.
  unfold CleanupScript.main, CleanupScript.verify_input_args,
    CleanupScript.cleanup_output, CleanupScript.isfile.
  fold input. fold output. repeat split.
  - intros p Hp. destruct (fs input) as [content|]; cbn [negb]; [|reflexivity].
    destruct (fs output); destruct (CleanupScript.force args);
      cbn [negb andb]; auto using write_other.
  - intros ->. reflexivity.
  - intros Hout ->. destruct (fs input); cbn [negb]; [|reflexivity].
    destruct (fs output); [reflexivity | congruence].
  - intros content -> Hok. cbn [negb].
    destruct Hok as [-> | ->].
    + cbn [andb negb]. apply write_same.
    + rewrite andb_false_r. cbn [negb]. apply write_same.
Qed.

Lemma main_is_safe_example :
  let fs : CleanupScript.FS :=
    fun p => if String.eqb p "in.csv"
             then Some ("Title|https://example.com/threads/x.1/|24k"
                        ++ String newline "| |")
             else if String.eqb p "output-clean.csv" then Some "old"
             else None in
  let forced := {| CleanupScript.input_file := "in.csv";
                   CleanupScript.output_file := "output-clean.csv";
                   CleanupScript.force := true |} in
  let unforced := {| CleanupScript.input_file := "in.csv";
                     CleanupScript.output_file := "output-clean.csv";
                     CleanupScript.force := false |} in
  CleanupScript.main fs forced "output-clean.csv"
  = Some (line_of "Title|https://example.com/threads/x.1/|24k")
  /\ CleanupScript.main fs forced "in.csv" = fs "in.csv"
  /\ CleanupScript.main fs unforced = fs.
Proof.
  intros fs forced unforced.
  destruct (main_is_safe fs forced) as (Hother & _ & _ & Hwrite).
  destruct (main_is_safe fs unforced) as (_ & _ & Hkeep & _).
  split; [|split].
  - exact (Hwrite _ eq_refl (or_intror eq_refl)).
  - apply Hother. discriminate.
  - apply Hkeep; [discriminate | reflexivity].
Defined.

(** ** Reading back what the filter wrote *)

Section ReadBack.

Import CleanupScript.

Lemma universal_newlines_no_cr_bounded (n : nat) :
  forall s, (String.length s <= n)%nat ->
            has_char carriage_return (universal_newlines s) = false.
Proof.
  induction n as [|n IH]; intros [|c s] Hlen; try reflexivity;
    [simpl in Hlen; lia|].
  cbn [universal_newlines]. simpl in Hlen.
  destruct (Ascii.eqb_spec c carriage_return) as [->|Hc].
  - destruct s as [|d s]; [reflexivity|].
    destruct (Ascii.eqb d newline); cbn [has_char];
      change (Ascii.eqb newline carriage_return) with false; cbn [orb];
      apply IH; simpl in Hlen |- *; lia.
  - cbn [has_char]. apply Ascii.eqb_neq in Hc. rewrite Hc.
    apply IH. lia.
Qed.

Lemma universal_newlines_no_cr (s : string) :
  has_char carriage_return (universal_newlines s) = false.
Proof. now apply (universal_newlines_no_cr_bounded (String.length s)). Qed.

Lemma universal_newlines_fixed (s : string) :
  has_char carriage_return s = false -> universal_newlines s = s.
Proof.
  induction s as [|c s IH]; [reflexivity|]. cbn [has_char universal_newlines].
  intros H. apply orb_false_iff in H as [Hc Hs]. rewrite Hc.
  now rewrite IH.
Qed.

Lemma split_lines_read (s : string) :
  has_char carriage_return s = false -> Forall read_line (split_lines s).
Proof.
  induction s as [|c s IH]; [constructor|].
  cbn [has_char split_lines]. intros H.
  apply orb_false_iff in H as [Hc Hs]. specialize (IH Hs).
  destruct (Ascii.eqb_spec c newline) as [->|Hn].
  - constructor; [|exact IH]. split; [reflexivity|].
    exists EmptyString. split; [reflexivity | now right].
  - apply Ascii.eqb_neq in Hn.
    destruct (split_lines s) as [|l ls].
    + constructor; [|constructor]. split; [cbn [has_char]; now rewrite Hc|].
      exists (String c EmptyString). cbn [has_char]. rewrite Hn. now split; [|left].
    + inversion IH as [|? ? [Hl (body & Hb & Hshape)] Hls]; subst.
      constructor; [|exact Hls]. split; [cbn [has_char]; now rewrite Hc, Hl|].
      exists (String c body). cbn [has_char]. rewrite Hn, Hb.
      split; [reflexivity|]. destruct Hshape as [-> | ->]; [now left | now right].
Qed.

Lemma rstrip_snoc_space (c : ascii) (s : string) :
  isspace c = true -> rstrip (s ++ String c EmptyString) = rstrip s.
Proof.
  intros Hc. induction s as [|d s IH].
  - cbn [append rstrip]. now rewrite Hc.
  - cbn [append rstrip]. now rewrite IH.
Qed.

Lemma lstrip_snoc_space (c : ascii) (s : string) :
  isspace c = true ->
  lstrip (s ++ String c EmptyString)
  = match lstrip s with
    | EmptyString => EmptyString
    | String d r => String d r ++ String c EmptyString
    end.
Proof.
  intros Hc. induction s as [|d s IH].
  - cbn [append lstrip]. now rewrite Hc.
  - cbn [append lstrip]. destruct (isspace d); [exact IH | reflexivity].
Qed.

Lemma strip_snoc_space (c : ascii) (s : string) :
  isspace c = true -> strip (s ++ String c EmptyString) = strip s.
Proof.
  intros Hc. unfold strip. rewrite (lstrip_snoc_space c s Hc).
  destruct (lstrip s) as [|d r]; [reflexivity|].
  now apply rstrip_snoc_space.
Qed.

Lemma has_char_lstrip_incl (c : ascii) (s : string) :
  has_char c s = false -> has_char c (lstrip s) = false.
Proof.
  induction s as [|d s IH]; [reflexivity|]. cbn [lstrip has_char].
  intros H. apply orb_false_iff in H as [Hd Hs].
  destruct (isspace d); [now apply IH|]. cbn [has_char]. now rewrite Hd.
Qed.

Lemma has_char_rstrip_incl (c : ascii) (s : string) :
  has_char c s = false -> has_char c (rstrip s) = false.
Proof.
  induction s as [|d s IH]; [reflexivity|]. cbn [rstrip has_char].
  intros H. apply orb_false_iff in H as [Hd Hs]. specialize (IH Hs).
  destruct (rstrip s) as [|e r].
  - destruct (isspace d); [reflexivity|]. cbn [has_char]. now rewrite Hd.
  - cbn [has_char] in IH |- *. now rewrite Hd, IH.
Qed.

Lemma has_char_strip_incl (c : ascii) (s : string) :
  has_char c s = false -> has_char c (strip s) = false.
Proof.
  intros H. unfold strip. now apply has_char_rstrip_incl, has_char_lstrip_incl.
Qed.

Lemma read_line_strip (l : string) :
  read_line l ->
  has_char carriage_return (strip l) = false /\ has_char newline (strip l) = false.
Proof.
  unfold read_line. intros [Hcr (body & Hb & [-> | ->])].
  - split; now apply has_char_strip_incl.
  - split; [now apply has_char_strip_incl|].
    unfold line_of. rewrite strip_snoc_space by reflexivity.
    now apply has_char_strip_incl.
Qed.

Lemma split_lines_line_of (body rest : string) :
  has_char newline body = false ->
  split_lines (line_of body ++ rest) = line_of body :: split_lines rest.
Proof.
  unfold line_of. induction body as [|c body IH]; intros H.
  - reflexivity.
  - cbn [has_char] in H. apply orb_false_iff in H as [Hc Hb].
    cbn [append split_lines]. rewrite Hc, (IH Hb). reflexivity.
Qed.

Lemma has_char_line_of (c : ascii) (body : string) :
  has_char c (line_of body) = has_char c body || Ascii.eqb newline c.
Proof.
  unfold line_of. rewrite has_char_append. cbn [has_char].
  now rewrite orb_false_r.
Qed.

Lemma read_back_lines (bodies : list string) :
  Forall (fun b => has_char carriage_return b = false /\ has_char newline b = false) bodies ->
  readlines (written (map line_of bodies)) = map line_of bodies.
Proof.
  intros H. unfold readlines.
  assert (Hcr : has_char carriage_return (written (map line_of bodies)) = false).
  { induction H as [|b bs [Hb _] _ IH]; [reflexivity|].
    cbn [map written fold_right]. rewrite has_char_append, has_char_line_of.
    fold (written (map line_of bs)). now rewrite Hb, IH. }
  rewrite (universal_newlines_fixed _ Hcr). clear Hcr.
  induction H as [|b bs [_ Hb] _ IH]; [reflexivity|].
  cbn [map written fold_right]. fold (written (map line_of bs)).
  now rewrite (split_lines_line_of _ _ Hb), IH.
Qed.

End ReadBack.

(** X16. The file the filter writes reads back as exactly the lines it
    wrote: whatever the input text, each written line is one line of the
    output file, with no newline or carriage return inside. *)
Theorem cleanup_output_reads_back (content : string) :
  let out := Cleanup.cleanup_output (CleanupScript.readlines content) in
  CleanupScript.readlines (CleanupScript.written out) = out.
Proof.
  cbv zeta. unfold Cleanup.cleanup_output.
  set (kept := filter Cleanup.keeps (CleanupScript.readlines content)).
  assert (Hkept : Forall read_line kept).
  { apply Forall_forall. intros l Hl. apply filter_In in Hl as [Hl _].
    pose proof (split_lines_read _ (universal_newlines_no_cr content)) as H.
    rewrite Forall_forall in H. now apply H. }
  change (map (fun line => strip line ++ String newline EmptyString) kept)
    with (map (fun line => line_of (strip line)) kept).
  rewrite <- (map_map strip line_of).
  apply read_back_lines.
  apply Forall_forall. intros b Hb.
  apply in_map_iff in Hb as (l & <- & Hl).
  rewrite Forall_forall in Hkept. now apply read_line_strip, Hkept.
Qed.

(** ** What the pattern-bounded extraction needs *)

Section Reaches.

Import Re.

Lemma reaches_here (s : string) (g : groups) (k : cont) :
  matched (k s g) = true -> reaches s k.
Proof. intros H. now exists EmptyString, s, g. Qed.

Lemma reaches_later (c : ascii) (s : string) (k : cont) :
  reaches s k -> reaches (String c s) k.
Proof.
  intros (pre & s' & g' & -> & H). now exists (String c pre), s', g'.
Qed.

Lemma reaches_trans (s : string) (k1 k : cont) :
  reaches s k1 ->
  (forall s1 g1, matched (k1 s1 g1) = true -> reaches s1 k) ->
  reaches s k.
Proof.
  intros (pre & s1 & g1 & -> & H1) Hk.
  destruct (Hk s1 g1 H1) as (pre' & s' & g' & -> & H).
  exists (pre ++ pre'), s', g'. split; [|exact H].
  now rewrite append_assoc.
Qed.

Lemma star_loop_reaches (body : string -> groups -> cont -> option groups)
    (greedy : bool) (k : cont) :
  (forall s g k', matched (body s g k') = true -> reaches s k') ->
  forall fuel s g,
    matched (star_loop body greedy fuel s g k) = true -> reaches s k.
Proof.
  intros Hbody. induction fuel as [|fuel IH]; intros s g; cbn [star_loop].
  - apply reaches_here.
  - intros H.
    assert (Hor : matched (k s g) = true
                  \/ matched (body s g (fun s' g' =>
                       if Nat.ltb (String.length s') (String.length s)
                       then star_loop body greedy fuel s' g' k
                       else None)) = true).
    { destruct greedy; rewrite matched_orelse in H;
        apply orb_true_iff in H; tauto. }
    destruct Hor as [Hk|Hagain]; [now apply (reaches_here s g)|].
    apply Hbody in Hagain. apply (reaches_trans _ _ _ Hagain).
    intros s1 g1 H1.
    destruct (Nat.ltb (String.length s1) (String.length s));
      [now apply (IH s1 g1) | discriminate].
Qed.

(** Whenever a pattern matches with a continuation, the continuation
    succeeded on some later part of the subject. *)
Lemma run_reaches (r : re) :
  forall s g k, matched (run r s g k) = true -> reaches s k.
Proof.
  induction r as [|c|p|r1 IH1 r2 IH2|greedy r1 IH1|greedy r1 IH1|n r1 IH1];
    intros s g k H.
  - now apply (reaches_here s g).
  - apply matched_run_Chr in H as (s' & -> & H).
    now apply reaches_later, (reaches_here s' g).
  - apply matched_run_Cls in H as (d & s' & -> & _ & H).
    now apply reaches_later, (reaches_here s' g).
  - cbn [run] in H. apply IH1 in H. apply (reaches_trans _ _ _ H).
    intros s1 g1. apply IH2.
  - cbn [run] in H.
    assert (Hor : matched (run r1 s g k) = true \/ matched (k s g) = true).
    { destruct greedy; rewrite matched_orelse in H;
        apply orb_true_iff in H; tauto. }
    destruct Hor as [H1|Hk]; [now apply (IH1 s g) | now apply (reaches_here s g)].
  - cbn [run] in H. apply (star_loop_reaches (run r1) greedy k) in H; auto.
  - cbn [run] in H. apply IH1 in H as (pre & s' & g' & -> & H).
    exists pre, s'. eexists. split; [reflexivity | exact H].
Qed.

Lemma search_reaches (r : re) (s : string) (m : groups) :
  search r s = Some m ->
  exists pre s', s = pre ++ s' /\ pmatch r s' = Some m.
Proof.
  induction s as [|c s IH]; cbn [search].
  - destruct (pmatch r EmptyString) as [g|] eqn:E; [|discriminate].
    intros [= <-]. now exists EmptyString, EmptyString.
  - destruct (pmatch r (String c s)) as [g|] eqn:E.
    + intros [= <-]. now exists EmptyString, (String c s).
    + intros H. apply IH in H as (pre & s' & -> & H).
      now exists (String c pre), s'.
Qed.

End Reaches.

(** X17. The pattern-bounded extraction returns something other than the
    not-found sentinel only for a text that holds the start marker
    "Statistics (" and, somewhere after it, the literal ", Word Count: ". *)
Theorem QQ_get_word_count_text_needs_markers (text : string) :
  QQ.get_word_count_text text <> PROBLEM_WORD_COUNT_NOT_FOUND ->
  exists pre mid post,
    text = pre ++ QQ.start_text ++ mid ++ ", Word Count: " ++ post.
Proof.
  unfold QQ.get_word_count_text.
  destruct (find QQ.start_text text 0) as [i|] eqn:Hs; [|congruence].
  apply find_Some in Hs as (_ & (pre & post0 & E & Hi) & _). subst i.
  rewrite E at 1. rewrite <- length_append, <- append_assoc, drop_append.
  destruct (Re.search QQ.threadmark_pattern post0) as [m|] eqn:Hm;
    [|congruence].
  intros _. apply search_reaches in Hm as (pre1 & s1 & -> & Hm).
  assert (H : matched
                (Re.run (Re.Star true (Re.Chr tab)) s1 []
                   (fun s2 g2 =>
                      Re.run
                        (Re.Grp 1
                           (Re.Seq
                              [Re.Opt true
                                 (Re.Seq [Re.Plus true (Re.Cls Re.digit);
                                          Re.Chr ","]);
                               Re.Plus true (Re.Cls Re.digit);
                               Re.Plus true
                                 (Re.Cls (fun c => Re.space c || Re.word c))]))
                        s2 g2
                        (fun s3 g3 =>
                           Re.run (Re.Lit ", Word Count: ") s3 g3
                             (fun s4 g4 =>
                                Re.run
                                  (Re.Grp 2
                                     (Re.Seq
                                        [Re.Plus true (Re.Cls Re.digit);
                                         Re.Opt true (Re.Chr ".");
                                         Re.Plus true (Re.Cls Re.digit);
                                         Re.Opt true
                                           (Re.Cls (Re.one_of "kKmM"))]))
                                  s4 g4 (fun _ g => Some g))))) = true).
  { change (matched (Re.pmatch QQ.threadmark_pattern s1) = true).
    now rewrite Hm. }
  apply run_reaches in H as (pre2 & s2 & g2 & -> & H).
  apply run_reaches in H as (pre3 & s3 & g3 & -> & H).
  apply matched_run_Lit in H as (s4 & -> & _).
  exists pre, (pre1 ++ pre2 ++ pre3), s4. rewrite E, !append_assoc.
  reflexivity.
Qed.

Lemma QQ_get_word_count_text_needs_markers_example :
  exists pre mid post,
    "Thread Statistics (7 threadmarks, Word Count: 4.9k"
    = pre ++ QQ.start_text ++ mid ++ ", Word Count: " ++ post.
Proof.
  apply (QQ_get_word_count_text_needs_markers
           "Thread Statistics (7 threadmarks, Word Count: 4.9k").
  vm_compute. discriminate.
Defined.

(** ** The crawl runs, end to end *)

Section Runs.

Local Open Scope list_scope.







End Runs.


